(** * r2_facial_recognition.client.local.recognition

    A shallow embedding of [recognition.py]: the loader of known faces
    ([load_images] with its inner [check_and_add]), the on-disk encoding
    cache ([get_cached], [add_cache]) and the matcher ([check_faces]).

    Python values are modelled as follows.
    - [str] is [string]; indexing, slicing and [rindex] are written out with
      the exceptions they raise.
    - A [numpy.ndarray] of float64 is the list of its elements, each element
      being the 64-bit IEEE-754 pattern as a [Z]; [tobytes] lays them out
      little-endian.
    - A [dict] is an association list in insertion order with unique keys;
      dict objects live in a heap and are passed by reference.
    - The file system maps paths to file contents and directories to what
      [os.walk] lists below them.
    - The [face_recognition] and [numpy.load] calls are the members of the
      class [Collab]; every call may raise.
    - Statements run in a state-and-exception monad over [World]; the log of
      a world records prints and collaborator calls in order. *)

From Stdlib Require Import ZArith Ascii String.
From Stdlib.Strings Require Import Byte.
From stdpp Require Import base option list gmap strings.

Local Open Scope string_scope.

(** ** Exceptions *)

Inductive exn : Type :=
  | ValueError
  | IndexError
  | TypeError
  | EOFError
  | RuntimeError
  | SystemError
  | FileNotFoundError
  | IsADirectoryError.

(** [except OSError] catches [OSError] and its subclasses. *)
Definition is_OSError (e : exn) : bool :=
  match e with
  | FileNotFoundError | IsADirectoryError => true
  | _ => false
  end.

Definition result (A : Type) : Type := (exn + A)%type.

(** ** Python strings *)

Module Str.

(** [s.rfind(c)]: the highest index at which the character [c] occurs. *)
Fixpoint rfind_from (c : ascii) (s : string) (i : nat) (last : option nat)
  : option nat :=
  match s with
  | EmptyString => last
  | String a r =>
      rfind_from c r (S i) (if Ascii.eqb a c then Some i else last)
  end.

Definition rfind (c : ascii) (s : string) : option nat :=
  rfind_from c s 0 None.

(** [s.rindex(c)] raises [ValueError] when [c] does not occur. *)
Definition rindex (c : ascii) (s : string) : result nat :=
  match rfind c s with
  | Some i => inr i
  | None => inl ValueError
  end.

(** [s[i]] for a non-negative [i]: a string of length one. *)
Definition item (s : string) (i : nat) : result string :=
  match String.get i s with
  | Some a => inr (String a EmptyString)
  | None => inl IndexError
  end.

(** [s[:n]] and [s[n:]]. *)
Definition take (n : nat) (s : string) : string := substring 0 n s.
Definition drop (n : nat) (s : string) : string :=
  substring n (String.length s - n) s.

Definition startswith (c : ascii) (s : string) : bool :=
  match s with
  | String a _ => Ascii.eqb a c
  | EmptyString => false
  end.

Fixpoint endswith (c : ascii) (s : string) : bool :=
  match s with
  | EmptyString => false
  | String a EmptyString => Ascii.eqb a c
  | String _ r => endswith c r
  end.

(** [s == c * len(s)]. *)
Fixpoint all_char (c : ascii) (s : string) : bool :=
  match s with
  | EmptyString => true
  | String a r => Ascii.eqb a c && all_char c r
  end.

(** [s.rstrip(c)]. *)
Fixpoint rstrip (c : ascii) (s : string) : string :=
  match s with
  | EmptyString => EmptyString
  | String a r =>
      match rstrip c r with
      | EmptyString => if Ascii.eqb a c then EmptyString else String a EmptyString
      | r' => String a r'
      end
  end.

(** [x in l] for a list of strings. *)
Definition mem (x : string) (l : list string) : bool :=
  existsb (String.eqb x) l.

End Str.

(** ** os.path (POSIX flavour) *)

Definition sep : ascii := "/"%char.
Definition dot : ascii := "."%char.

Definition os_path_join (a b : string) : string :=
  if Str.startswith sep b then b
  else if String.eqb a "" || Str.endswith sep a then a +:+ b
  else a +:+ "/" +:+ b.

Definition os_path_split (p : string) : string * string :=
  let i := match Str.rfind sep p with Some k => S k | None => 0 end in
  let head := Str.take i p in
  let tail := Str.drop i p in
  let head' :=
    if negb (String.eqb head "") && negb (Str.all_char sep head)
    then Str.rstrip sep head else head in
  (head', tail).

(** ** Module constants *)

Definition CACHE_LOCATION : string := ".cache".
Definition IMG_EXTs : list string := [".jpg"; ".jpeg"; ".png"].

(** ** numpy arrays of float64 *)

Definition float64 : Type := Z.
Definition ndarray : Type := list float64.

Definition byte_of_Z (z : Z) : byte :=
  match Byte.of_N (Z.to_N (z mod 256)) with
  | Some b => b
  | None => x00
  end.

(** The eight bytes of one element, least significant first. *)
Definition float64_bytes (x : float64) : list byte :=
  map (fun k : nat => byte_of_Z (Z.shiftr x (8 * Z.of_nat k))) (seq 0 8).

(** [encoding.tobytes()]. *)
Definition tobytes (e : ndarray) : list byte :=
  flat_map float64_bytes e.

(** ** dict objects *)

Definition registry : Type := list (string * ndarray).

(** [d[k] = v]: an existing key keeps its position, a new key goes last. *)
Fixpoint dict_set (k : string) (v : ndarray) (d : registry) : registry :=
  match d with
  | [] => [(k, v)]
  | (k', v') :: r =>
      if String.eqb k' k then (k', v) :: r else (k', v') :: dict_set k v r
  end.

Fixpoint dict_get (k : string) (d : registry) : option ndarray :=
  match d with
  | [] => None
  | (k', v') :: r => if String.eqb k' k then Some v' else dict_get k r
  end.

Definition dict_keys (d : registry) : list string := map fst d.

(** Number of entries stored under the key [k]. *)
Fixpoint dict_count (k : string) (d : registry) : nat :=
  match d with
  | [] => 0
  | (k', _) :: r => (if String.eqb k' k then 1 else 0) + dict_count k r
  end.

(** ** The world: file system, heap of dict objects, log *)

Definition ref : Type := nat.

Inductive event : Type :=
  | EvPrint (msg : string)
  | EvDiag (distance : float64) (name : string)
  | EvLoadImageFile (path : string)
  | EvFaceLocations
  | EvFaceEncodings
  | EvCompareFaces (known : list ndarray)
  | EvFaceDistance (known : list ndarray)
  | EvNumpyLoad (path : string)
  | EvWrite (path : string) (data : list byte).

Record World : Type := mkWorld {
  w_files : gmap string (list byte);
  w_walk : gmap string (list (list string));
  w_heap : list registry;
  w_log : list event
}.

Definition set_files (f : gmap string (list byte)) (w : World) : World :=
  mkWorld f (w_walk w) (w_heap w) (w_log w).
Definition set_heap (h : list registry) (w : World) : World :=
  mkWorld (w_files w) (w_walk w) h (w_log w).
Definition add_log (e : event) (w : World) : World :=
  mkWorld (w_files w) (w_walk w) (w_heap w) (w_log w ++ [e])%list.

Inductive kind : Type :=
  | KNone
  | KDir
  | KFile (content : list byte).

Definition stat (p : string) (w : World) : kind :=
  match w_walk w !! p with
  | Some _ => KDir
  | None =>
      match w_files w !! p with
      | Some bs => KFile bs
      | None => KNone
      end
  end.

(** ** The monad of statements *)

Definition M (A : Type) : Type := World -> result A * World.

Definition ret {A} (a : A) : M A := fun w => (inr a, w).
Definition raise {A} (e : exn) : M A := fun w => (inl e, w).
Definition lift {A} (r : result A) : M A := fun w => (r, w).

Definition bind {A B} (m : M A) (k : A -> M B) : M B :=
  fun w =>
    match m w with
    | (inl e, w') => (inl e, w')
    | (inr a, w') => k a w'
    end.

Notation "x <~ m ;; k" := (bind m (fun x => k))
  (at level 100, m at next level, right associativity).
Notation "m ;;; k" := (bind m (fun _ => k))
  (at level 100, right associativity).

(** [try: body except <catches>: handler]. *)
Definition try_except {A} (body : M A) (catches : exn -> bool)
    (handler : M A) : M A :=
  fun w =>
    match body w with
    | (inl e, w') => if catches e then handler w' else (inl e, w')
    | (inr a, w') => (inr a, w')
    end.

(** [for x in l: body x]. *)
Fixpoint for_each {A} (l : list A) (body : A -> M unit) : M unit :=
  match l with
  | [] => ret tt
  | x :: r => body x ;;; for_each r body
  end.

Definition emit (e : event) : M unit := fun w => (inr tt, add_log e w).
Definition print (msg : string) : M unit := emit (EvPrint msg).

(** *** Heap primitives *)

(** [{}]: a new, empty dict object. *)
Definition new_dict : M ref :=
  fun w => (inr (length (w_heap w)), set_heap (w_heap w ++ [[]])%list w).

Definition dict_setitem (r : ref) (k : string) (v : ndarray) : M unit :=
  fun w =>
    match w_heap w !! r with
    | Some d => (inr tt, set_heap (<[r := dict_set k v d]> (w_heap w)) w)
    | None => (inl SystemError, w)
    end.

(** [list(d.items())]. *)
Definition dict_items (r : ref) : M registry :=
  fun w =>
    match w_heap w !! r with
    | Some d => (inr d, w)
    | None => (inl SystemError, w)
    end.

(** *** File-system primitives *)

Definition os_path_isdir (p : string) : M bool :=
  fun w => (inr (match stat p w with KDir => true | _ => false end), w).

Definition os_path_isfile (p : string) : M bool :=
  fun w => (inr (match stat p w with KFile _ => true | _ => false end), w).

(** The [files] component of every triple [os.walk(p)] yields. *)
Definition os_walk_files (p : string) : M (list (list string)) :=
  fun w => (inr (default [] (w_walk w !! p)), w).

(** Reading a whole file. *)
Definition read_file (p : string) : M (list byte) :=
  fun w =>
    match stat p w with
    | KFile bs => (inr bs, w)
    | KDir => (inl IsADirectoryError, w)
    | KNone => (inl FileNotFoundError, w)
    end.

(** [open(p, 'rb+')]: the file must exist; nothing is created. *)
Definition open_rb_plus (p : string) : M unit :=
  fun w =>
    match stat p w with
    | KFile _ => (inr tt, w)
    | KDir => (inl IsADirectoryError, w)
    | KNone => (inl FileNotFoundError, w)
    end.

(** [f.seek(0); f.truncate()] on the open file [p]. *)
Definition seek0_truncate (p : string) : M unit :=
  fun w => (inr tt, set_files (<[p := []]> (w_files w)) w).

(** [f.write(data)] at the current position of the open file [p]. *)
Definition file_write (p : string) (pos : nat) (data : list byte) : M unit :=
  fun w =>
    let old := default [] (w_files w !! p) in
    let new := (take pos old ++ data ++ drop (pos + length data) old)%list in
    (inr tt, add_log (EvWrite p data) (set_files (<[p := new]> (w_files w)) w)).

(** [l[i]] for a non-negative [i]. *)
Definition py_index {A} (l : list A) (i : nat) : result A :=
  match l !! i with
  | Some x => inr x
  | None => inl IndexError
  end.

(** ** Collaborators

    The calls into [face_recognition] and [numpy] whose code is outside the
    module.  Each member gives the outcome of one call on the values the call
    reads; where the module hands over an iterable, that is the sequence of
    items the iterable yields to the callee. *)

Class Collab : Type := {
  image : Type;
  box : Type;
  (** decoding inside [face_recognition.load_image_file] *)
  decode_image : list byte -> result image;
  (** [face_recognition.face_locations(img)] *)
  face_locations : image -> result (list box);
  (** [face_recognition.face_encodings(img, known_face_locations)] *)
  face_encodings : image -> option (list box) -> result (list ndarray);
  (** [face_recognition.compare_faces(known, unknown)] *)
  compare_faces : list ndarray -> ndarray -> result (list bool);
  (** [face_recognition.face_distance(known, unknown)] *)
  face_distance : list ndarray -> ndarray -> result (list float64);
  (** [numpy.load(..., allow_pickle=False)] on the bytes of an existing file *)
  numpy_read : list byte -> result ndarray;
  (** [<] on float64 *)
  float_lt : float64 -> float64 -> bool
}.

(** ** A [map] object

    [map(f, xs)] is an iterator: it yields each item once, and whoever
    iterates over it leaves it exhausted.  The state of the object is the list
    of items it has not yielded yet. *)

Definition map_object : Type := list ndarray.

Definition py_map (f : string * ndarray -> ndarray) (xs : registry)
  : map_object := map f xs.

(** Iterating to the end: the items yielded, and the object afterwards. *)
Definition iterate (it : map_object) : list ndarray * map_object := (it, []).

(** [os.path.join(cache_location, f'{name}.encoding')] *)
Definition entry_path (name cache_location : string) : string :=
  os_path_join cache_location (name +:+ ".encoding").

Section Program.

Context `{C : Collab}.

(** ** numpy.argmin: index of the first smallest element *)

Fixpoint argmin_from (best_i : nat) (best : float64) (i : nat)
    (l : list float64) : nat :=
  match l with
  | [] => best_i
  | d :: r =>
      if float_lt d best then argmin_from i d (S i) r
      else argmin_from best_i best (S i) r
  end.

Definition numpy_argmin (l : list float64) : result nat :=
  match l with
  | [] => inl ValueError
  | d :: r => inr (argmin_from 0 d 1 r)
  end.

(** ** Collaborator calls, logged *)

Definition numpy_load (p : string) : M ndarray :=
  emit (EvNumpyLoad p) ;;;
  bs <~ read_file p ;;
  lift (numpy_read bs).

Definition load_image_file (p : string) : M image :=
  emit (EvLoadImageFile p) ;;;
  bs <~ read_file p ;;
  lift (decode_image bs).

Definition call_face_locations (img : image) : M (list box) :=
  emit EvFaceLocations ;;; lift (face_locations img).

Definition call_face_encodings (img : image) (locs : option (list box))
  : M (list ndarray) :=
  emit EvFaceEncodings ;;; lift (face_encodings img locs).

Definition call_compare_faces (known : list ndarray) (u : ndarray)
  : M (list bool) :=
  emit (EvCompareFaces known) ;;; lift (compare_faces known u).

Definition call_face_distance (known : list ndarray) (u : ndarray)
  : M (list float64) :=
  emit (EvFaceDistance known) ;;; lift (face_distance known u).

(** ** get_cached, add_cache *)

Definition get_cached (name : string) (cache_location : string)
  : M ndarray :=
  numpy_load (entry_path name cache_location).

Definition add_cache (name : string) (encoding : ndarray)
    (cache_location : string) : M unit :=
  let p := entry_path name cache_location in
  open_rb_plus p ;;;
  seek0_truncate p ;;;
  file_write p 0 (tobytes encoding).

(** ** load_images *)

(** [face_recognition.face_encodings(
       face_recognition.load_image_file(os.path.join(path_, file_)))[0]] *)
Definition first_encoding (path_ file_ : string) : M ndarray :=
  img <~ load_image_file (os_path_join path_ file_) ;;
  encs <~ call_face_encodings img None ;;
  lift (py_index encs 0).

Definition check_and_add (mappings : ref) (cache : bool)
    (cache_location : string) (path_ file_ : string) : M unit :=
  i <~ lift (Str.rindex dot file_) ;;
  let filename_ := Str.take i file_ in
  if cache then
    try_except
      (enc <~ get_cached file_ cache_location ;;
       dict_setitem mappings filename_ enc)
      is_OSError
      (encoding <~ first_encoding path_ file_ ;;
       add_cache filename_ encoding cache_location ;;;
       dict_setitem mappings filename_ encoding)
  else
    (enc <~ first_encoding path_ file_ ;;
     dict_setitem mappings filename_ enc).

(** The body of the inner loop of the directory branch. *)
Definition visit_file (mappings : ref) (cache : bool)
    (cache_location : string) (path file : string) : M unit :=
  ext_idx <~ lift (Str.rindex dot file) ;;
  c <~ lift (Str.item file (ext_idx + 1)) ;;
  if Str.mem c IMG_EXTs then
    (print (file +:+ " was loaded in as a recognized face.") ;;;
     i <~ lift (Str.rindex dot file) ;;
     let filename := Str.take i file in
     check_and_add mappings cache cache_location path filename)
  else ret tt.

Definition warning : string :=
  "Warning: file being explicitly loaded does not have .jpg extension. Make sure this is actually an image file.".

Definition load_images (path : string) (mappings : option ref)
    (cache : bool) (cache_location : string) : M ref :=
  mappings <~ match mappings with
              | None => new_dict
              | Some r => ret r
              end ;;
  isdir <~ os_path_isdir path ;;
  if isdir then
    (walk <~ os_walk_files path ;;
     for_each walk (fun files =>
       for_each files (fun file =>
         visit_file mappings cache cache_location path file)) ;;;
     ret mappings)
  else
    (isfile <~ os_path_isfile path ;;
     if isfile then
       (ext_idx <~ lift (Str.rindex dot path) ;;
        c <~ lift (Str.item path (ext_idx + 1)) ;;
        (if negb (Str.mem c IMG_EXTs) then print warning else ret tt) ;;;
        check_and_add mappings cache cache_location
          (fst (os_path_split path)) (snd (os_path_split path)) ;;;
        ret mappings)
     else raise RuntimeError).

(** ** check_faces *)

(** One pass of the loop body for [unknown_face]; [known_encodings] is the
    state of the map object before the pass, and the pass returns the label
    together with the state afterwards. *)
Definition check_face (ordered_map : registry)
    (known_encodings : map_object) (unknown_face : ndarray)
  : M (string * map_object) :=
  let '(yielded1, known_encodings) := iterate known_encodings in
  matches <~ call_compare_faces yielded1 unknown_face ;;
  let '(yielded2, known_encodings) := iterate known_encodings in
  face_distances <~ call_face_distance yielded2 unknown_face ;;
  closest_idx <~ lift (numpy_argmin face_distances) ;;
  distance <~ lift (py_index face_distances closest_idx) ;;
  m <~ lift (py_index matches closest_idx) ;;
  name <~ (if m : bool
           then lift (match py_index ordered_map closest_idx with
                      | inr kv => inr (fst kv)
                      | inl e => inl e
                      end)
           else ret "Unknown") ;;
  emit (EvDiag distance name) ;;;
  ret (name, known_encodings).

Fixpoint check_faces_loop (ordered_map : registry)
    (known_encodings : map_object) (unknown_face_encodings : list ndarray)
    (identities : list string) : M (list string * map_object) :=
  match unknown_face_encodings with
  | [] => ret (identities, known_encodings)
  | unknown_face :: rest =>
      r <~ check_face ordered_map known_encodings unknown_face ;;
      check_faces_loop ordered_map (snd r) rest
        (identities ++ [fst r])%list
  end.

Definition check_faces (img : image) (mappings : ref)
  : M (list string * list box) :=
  ordered_map <~ dict_items mappings ;;
  let known_encodings := py_map snd ordered_map in
  unknown_face_locations <~ call_face_locations img ;;
  unknown_face_encodings <~
    call_face_encodings img (Some unknown_face_locations) ;;
  r <~ check_faces_loop ordered_map known_encodings
         unknown_face_encodings [] ;;
  ret (fst r, unknown_face_locations).

End Program.

(** The collaborator returns no distance when it is given no encoding. *)
Definition no_distance_from_nothing `{C : Collab} (u : ndarray) : Prop :=
  forall ds, face_distance [] u = inr ds -> ds = [].

(** ** Log queries *)

Definition is_embedding_call (e : event) : bool :=
  match e with EvFaceEncodings => true | _ => false end.

Definition is_matching_call (e : event) : bool :=
  match e with
  | EvCompareFaces _ | EvFaceDistance _ => true
  | _ => false
  end.

Definition is_cache_write (e : event) : bool :=
  match e with EvWrite _ _ => true | _ => false end.

Definition count_events (p : event -> bool) (l : list event) : nat :=
  length (List.filter p l).

(** ** Frames: what a statement leaves alone *)

(** Only the log may differ. *)
Definition only_log (w w' : World) : Prop :=
  w_heap w' = w_heap w /\ w_walk w' = w_walk w /\ w_files w' = w_files w.

(** The dict objects and the directory listings are the same. *)
Definition same_heap (w w' : World) : Prop :=
  w_heap w' = w_heap w /\ w_walk w' = w_walk w.

Definition same_walk (w w' : World) : Prop := w_walk w' = w_walk w.

(** Every dict object is still there and has kept all its keys. *)
Definition heap_grows (w w' : World) : Prop :=
  forall (r : ref) (d : registry),
    w_heap w !! r = Some d ->
    exists d', w_heap w' !! r = Some d' /\
               forall k, In k (dict_keys d) -> In k (dict_keys d').

Definition preserves {A} (R : World -> World -> Prop) (m : M A) : Prop :=
  forall w, R w (snd (m w)).

(** The log only gets longer. *)
Definition log_grows (w w' : World) : Prop :=
  exists l, w_log w' = (w_log w ++ l)%list.

(** Every dict object other than the one at [r] is as it was. *)
Definition others_same (r : ref) (w w' : World) : Prop :=
  forall r0, r0 <> r -> w_heap w' !! r0 = w_heap w !! r0.

(** The file system is the same: contents and directory listings. *)
Definition same_files (w w' : World) : Prop :=
  w_files w' = w_files w /\ w_walk w' = w_walk w.

(** The same paths name files, and the directory listings are the same. *)
Definition same_names (w w' : World) : Prop :=
  w_walk w' = w_walk w /\
  forall p, is_Some (w_files w' !! p) <-> is_Some (w_files w !! p).

(** ** Stand-ins for the collaborators

    An image is the list of the faces in it, a face being a box number and
    an encoding.  The reference image stored in a file has one face whose
    encoding lists the byte values of the file.  Distances are squared
    Euclidean distances on the elements read as integers; two faces match
    when that is at most [tolerance]. *)

Module Double.

Definition face : Type := (nat * ndarray)%type.

Definition sqdist (a b : ndarray) : Z :=
  fold_right Z.add 0%Z
    (map (fun xy : Z * Z => ((fst xy - snd xy) * (fst xy - snd xy))%Z)
         (combine a b)).

Definition tolerance : Z := 36.

Definition bytes_encoding (bs : list byte) : ndarray :=
  map (fun b => Z.of_N (Byte.to_N b)) bs.

Definition encodings_at (img : list face) (locs : option (list nat))
  : list ndarray :=
  match locs with
  | None => map snd img
  | Some ls =>
      map snd (List.filter (fun f : face => existsb (Nat.eqb (fst f)) ls) img)
  end.

(** The six bytes that open a [.npy] file. *)
Definition npy_magic : list byte := [x93; x4e; x55; x4d; x50; x59].

Fixpoint words (fuel : nat) (bs : list byte) : ndarray :=
  match fuel, bs with
  | S n, b0 :: b1 :: b2 :: b3 :: b4 :: b5 :: b6 :: b7 :: r =>
      fold_right (fun b acc => (Z.of_N (Byte.to_N b) + 256 * acc)%Z) 0%Z
        [b0; b1; b2; b3; b4; b5; b6; b7] :: words n r
  | _, _ => []
  end.

Fixpoint bytes_eqb (a b : list byte) : bool :=
  match a, b with
  | [], [] => true
  | x :: a', y :: b' => Byte.eqb x y && bytes_eqb a' b'
  | _, _ => false
  end.

(** A reader that, like [numpy.load] without pickling, accepts only data
    opening with the magic string. *)
Definition read (bs : list byte) : result ndarray :=
  match bs with
  | [] => inl EOFError
  | _ =>
      if bytes_eqb (take 6 bs) npy_magic
      then inr (words (length bs) (drop 6 bs))
      else inl ValueError
  end.

(** Collaborators that iterate over whatever iterable they are given. *)
Definition lenient : Collab := {|
  image := list face;
  box := nat;
  decode_image := fun bs => inr [(0, bytes_encoding bs)];
  face_locations := fun img => inr (map fst img);
  face_encodings := fun img locs => inr (encodings_at img locs);
  compare_faces := fun known u =>
    inr (map (fun k => Z.leb (sqdist k u) tolerance) known);
  face_distance := fun known u => inr (map (fun k => sqdist k u) known);
  numpy_read := read;
  float_lt := Z.ltb
|}.

(** Collaborators that take [len] of the known encodings first, which a
    [map] object does not have. *)
Definition strict : Collab := {|
  image := list face;
  box := nat;
  decode_image := fun bs => inr [(0, bytes_encoding bs)];
  face_locations := fun img => inr (map fst img);
  face_encodings := fun img locs => inr (encodings_at img locs);
  compare_faces := fun _ _ => inl TypeError;
  face_distance := fun _ _ => inl TypeError;
  numpy_read := read;
  float_lt := Z.ltb
|}.

End Double.

(** ** Sample worlds *)

Module Sample.

Definition alice_jpg : list byte := [x03; x04].

(** A directory [faces] holding [alice.jpg] and [notes.txt], and an empty
    cache directory. *)
Definition files : gmap string (list byte) :=
  <["faces/alice.jpg" := alice_jpg]> (<["faces/notes.txt" := [x61]]> ∅).

Definition walk : gmap string (list (list string)) :=
  <["faces" := [["alice.jpg"; "notes.txt"]]]> (<[".cache" := [[]]]> ∅).

Definition fresh : World := mkWorld files walk [] [].

(** The same, with an empty entry file for [alice] already in the cache. *)
Definition with_entry : World :=
  mkWorld (<[".cache/alice.encoding" := []]> files) walk [] [].

(** One dict object at address 0. *)
Definition with_dict (d : registry) (w : World) : World := set_heap [d] w.

Definition A : ndarray := [0; 0]%Z.
Definition B : ndarray := [100; 100]%Z.
Definition two_known : registry := [("A", A); ("B", B)].

(** A probe image with one face, next to [A]. *)
Definition probe_near_A : list Double.face := [(7, [1; 1]%Z)].

(** Two identities at the same distance from the probe. *)
Definition tied : registry := [("first", [0; 0]%Z); ("second", [2; 0]%Z)].
Definition probe_between : list Double.face := [(7, [1; 0]%Z)].

Definition no_face : list Double.face := [].

End Sample.

(** ** More scenarios *)

Module Scenario.

(** An entry in the [.npy] layout the stand-in reader accepts: the magic
    string, then the elements 5 and 6. *)
Definition npy_5_6 : list byte :=
  (Double.npy_magic ++ tobytes [5; 6]%Z)%list.

(** The cache holds a well-formed entry under the file name [alice.jpg]. *)
Definition hit : World :=
  mkWorld (<[".cache/alice.jpg.encoding" := npy_5_6]> Sample.files)
    Sample.walk [[]] [].

(** The cache holds raw bytes under the file name [alice.jpg]. *)
Definition corrupt : World :=
  mkWorld (<[".cache/alice.jpg.encoding" := tobytes [5; 6]%Z]> Sample.files)
    Sample.walk [[]] [].

(** An entry file for the stem [alice] exists, with old content. *)
Definition stale : World :=
  mkWorld (<[".cache/alice.encoding" := [x01; x02; x03]]> Sample.files)
    Sample.walk [[("bob", [9; 9]%Z)]] [].

(** No entry at all; one dict holding [bob]. *)
Definition empty_cache : World :=
  Sample.with_dict [("bob", [9; 9]%Z)] Sample.fresh.

(** Collaborators that find no face in any image. *)
Definition faceless : Collab := {|
  image := list Double.face;
  box := nat;
  decode_image := fun _ => inr [];
  face_locations := fun _ => inr [];
  face_encodings := fun _ _ => inr [];
  compare_faces := fun known u =>
    inr (map (fun k => Z.leb (Double.sqdist k u) Double.tolerance) known);
  face_distance := fun known u =>
    inr (map (fun k => Double.sqdist k u) known);
  numpy_read := Double.read;
  float_lt := Z.ltb
|}.

End Scenario.

(** * Properties *)

(** ** Frame rules of the monad *)

Section Frame.

Variable R : World -> World -> Prop.
Hypothesis R_refl : forall w, R w w.
Hypothesis R_trans : forall w1 w2 w3, R w1 w2 -> R w2 w3 -> R w1 w3.

Lemma preserves_ret {A} (a : A) : preserves R (ret a).
Proof. intros w. apply R_refl. Qed.

Lemma preserves_raise {A} (e : exn) : preserves R (@raise A e).
Proof. intros w. apply R_refl. Qed.

Lemma preserves_lift {A} (r : result A) : preserves R (lift r).
Proof. intros w. apply R_refl. Qed.

Lemma preserves_bind {A B} (m : M A) (k : A -> M B) :
  preserves R m -> (forall a, preserves R (k a)) -> preserves R (bind m k).
Proof.
  intros Hm Hk w. unfold bind.
  specialize (Hm w). destruct (m w) as [[e | a] w1]; simpl in *.
  - exact Hm.
  - eapply R_trans; [exact Hm | apply Hk].
Qed.

Lemma preserves_try {A} (body handler : M A) (catches : exn -> bool) :
  preserves R body -> preserves R handler ->
  preserves R (try_except body catches handler).
Proof.
  intros Hb Hh w. unfold try_except.
  specialize (Hb w). destruct (body w) as [[e | a] w1]; simpl in *.
  - destruct (catches e); simpl; [| exact Hb].
    eapply R_trans; [exact Hb | apply Hh].
  - exact Hb.
Qed.

Lemma preserves_for_each {A} (l : list A) (body : A -> M unit) :
  (forall x, preserves R (body x)) -> preserves R (for_each l body).
Proof.
  intros Hb. induction l as [| x l IH]; simpl.
  - apply preserves_ret.
  - apply preserves_bind; [apply Hb | intros _; exact IH].
Qed.

Lemma preserves_if {A} (b : bool) (m1 m2 : M A) :
  preserves R m1 -> preserves R m2 -> preserves R (if b then m1 else m2).
Proof. destruct b; auto. Qed.

End Frame.

Lemma only_log_refl w : only_log w w.
Proof. repeat split. Qed.

Lemma only_log_trans w1 w2 w3 :
  only_log w1 w2 -> only_log w2 w3 -> only_log w1 w3.
Proof. unfold only_log. intuition congruence. Qed.

Lemma same_heap_refl w : same_heap w w.
Proof. split; reflexivity. Qed.

Lemma same_heap_trans w1 w2 w3 :
  same_heap w1 w2 -> same_heap w2 w3 -> same_heap w1 w3.
Proof. unfold same_heap. intuition congruence. Qed.

Lemma same_walk_refl w : same_walk w w.
Proof. reflexivity. Qed.

Lemma same_walk_trans w1 w2 w3 :
  same_walk w1 w2 -> same_walk w2 w3 -> same_walk w1 w3.
Proof. unfold same_walk. congruence. Qed.

Lemma heap_grows_refl w : heap_grows w w.
Proof. intros r d H. exists d. split; auto. Qed.

Lemma heap_grows_trans w1 w2 w3 :
  heap_grows w1 w2 -> heap_grows w2 w3 -> heap_grows w1 w3.
Proof.
  intros H12 H23 r d H.
  destruct (H12 r d H) as (d2 & H2 & K2).
  destruct (H23 r d2 H2) as (d3 & H3 & K3).
  exists d3. split; auto.
Qed.

Lemma only_log_same_heap w w' : only_log w w' -> same_heap w w'.
Proof. unfold only_log, same_heap. tauto. Qed.

Lemma same_heap_same_walk w w' : same_heap w w' -> same_walk w w'.
Proof. unfold same_heap, same_walk. tauto. Qed.

Lemma same_heap_grows w w' : same_heap w w' -> heap_grows w w'.
Proof.
  intros [E _] r d H. exists d. rewrite E. split; auto.
Qed.

Lemma preserves_weaken {A} (R R' : World -> World -> Prop) (m : M A) :
  (forall w w', R w w' -> R' w w') -> preserves R m -> preserves R' m.
Proof. intros HR Hm w. apply HR, Hm. Qed.

(** ** dict objects *)

Lemma dict_set_keys k v d k' :
  In k' (dict_keys d) -> In k' (dict_keys (dict_set k v d)).
Proof.
  induction d as [| [k0 v0] d IH]; simpl; [tauto |].
  intros [E | H]; destruct (String.eqb k0 k); simpl; auto.
Qed.

Lemma dict_set_key_in k v d : In k (dict_keys (dict_set k v d)).
Proof.
  induction d as [| [k0 v0] d IH]; simpl; [auto |].
  destruct (String.eqb k0 k) eqn:E; simpl; auto.
  apply String.eqb_eq in E. auto.
Qed.

Lemma dict_set_keys_inv k v d k' :
  In k' (dict_keys (dict_set k v d)) -> k' = k \/ In k' (dict_keys d).
Proof.
  induction d as [| [k0 v0] d IH]; simpl.
  - intros [E | []]. auto.
  - destruct (String.eqb k0 k) eqn:E; simpl; [tauto |].
    intros [E' | H]; [auto |]. destruct (IH H); auto.
Qed.

Lemma dict_set_NoDup k v d :
  NoDup (dict_keys d) -> NoDup (dict_keys (dict_set k v d)).
Proof.
  induction d as [| [k0 v0] d IH]; simpl; intros H.
  - constructor; [rewrite list_elem_of_In; simpl; tauto | constructor].
  - destruct (String.eqb k0 k) eqn:E; simpl; [exact H |].
    inversion H as [| ? ? Hn Hd]; subst. constructor; [| auto].
    rewrite list_elem_of_In in *. intros Hin.
    destruct (dict_set_keys_inv _ _ _ _ Hin) as [-> | Hin']; [| auto].
    rewrite String.eqb_refl in E. discriminate.
Qed.

Lemma dict_count_absent k d :
  ~ In k (dict_keys d) -> dict_count k d = 0.
Proof.
  induction d as [| [k0 v0] d IH]; simpl; [auto |].
  intros H. destruct (String.eqb k0 k) eqn:E; simpl.
  - apply String.eqb_eq in E. tauto.
  - apply IH. tauto.
Qed.

Lemma dict_count_set k v d :
  NoDup (dict_keys d) -> dict_count k (dict_set k v d) = 1.
Proof.
  induction d as [| [k0 v0] d IH]; simpl; intros H.
  - rewrite String.eqb_refl. reflexivity.
  - inversion H as [| ? ? Hn Hd]; subst.
    destruct (String.eqb k0 k) eqn:E; simpl; rewrite E; simpl.
    + apply String.eqb_eq in E. subst k0.
      rewrite list_elem_of_In in Hn.
      f_equal. apply (dict_count_absent k d Hn).
    + auto.
Qed.

Lemma dict_set_present k v d :
  In k (dict_keys d) -> dict_keys (dict_set k v d) = dict_keys d.
Proof.
  induction d as [| [k0 v0] d IH]; simpl; [tauto |].
  intros H. destruct (String.eqb k0 k) eqn:E; simpl; [reflexivity |].
  f_equal. apply IH. destruct H as [-> | H]; [| exact H].
  rewrite String.eqb_refl in E. discriminate.
Qed.

Lemma dict_set_twice k v d : dict_set k v (dict_set k v d) = dict_set k v d.
Proof.
  induction d as [| [k0 v0] d IH]; simpl.
  - rewrite String.eqb_refl. reflexivity.
  - destruct (String.eqb k0 k) eqn:E; simpl; rewrite E; [reflexivity |].
    rewrite IH. reflexivity.
Qed.

Lemma dict_get_set_eq k v d : dict_get k (dict_set k v d) = Some v.
Proof.
  induction d as [| [k0 v0] d IH]; simpl.
  - rewrite String.eqb_refl. reflexivity.
  - destruct (String.eqb k0 k) eqn:E; simpl; rewrite E; auto.
Qed.

Lemma dict_get_set_ne k k' v d :
  k' <> k -> dict_get k' (dict_set k v d) = dict_get k' d.
Proof.
  intros Hne. induction d as [| [k0 v0] d IH]; simpl.
  - destruct (String.eqb k k') eqn:E; [| reflexivity].
    apply String.eqb_eq in E. congruence.
  - destruct (String.eqb k0 k) eqn:E; simpl.
    + apply String.eqb_eq in E. subst k0.
      destruct (String.eqb k k') eqn:E'; [| reflexivity].
      apply String.eqb_eq in E'. congruence.
    + rewrite IH. reflexivity.
Qed.

(** ** Frames of the primitives and of the functions *)

Create HintDb frame.

Ltac frame_with Hrefl Htrans :=
  repeat first
    [ apply (preserves_bind _ Htrans); [| intros ?]
    | apply (preserves_try _ Htrans)
    | apply (preserves_for_each _ Hrefl Htrans); intros ?
    | apply (preserves_ret _ Hrefl)
    | apply (preserves_raise _ Hrefl)
    | apply (preserves_lift _ Hrefl)
    | apply preserves_if
    | progress eauto with frame ].

Lemma emit_only_log e : preserves only_log (emit e).
Proof. intros w. repeat split. Qed.

Lemma read_file_only_log p : preserves only_log (read_file p).
Proof. intros w. unfold read_file. destruct (stat p w); repeat split. Qed.

Lemma open_rb_plus_only_log p : preserves only_log (open_rb_plus p).
Proof. intros w. unfold open_rb_plus. destruct (stat p w); repeat split. Qed.

Lemma dict_items_only_log r : preserves only_log (dict_items r).
Proof.
  intros w. unfold dict_items. destruct (w_heap w !! r); repeat split.
Qed.

Lemma os_path_isdir_only_log p : preserves only_log (os_path_isdir p).
Proof. intros w. repeat split. Qed.

Lemma os_path_isfile_only_log p : preserves only_log (os_path_isfile p).
Proof. intros w. repeat split. Qed.

Lemma os_walk_files_only_log p : preserves only_log (os_walk_files p).
Proof. intros w. repeat split. Qed.

Lemma seek0_truncate_same_heap p : preserves same_heap (seek0_truncate p).
Proof. intros w. split; reflexivity. Qed.

Lemma file_write_same_heap p pos data :
  preserves same_heap (file_write p pos data).
Proof. intros w. split; reflexivity. Qed.

Lemma dict_setitem_same_walk r k v : preserves same_walk (dict_setitem r k v).
Proof.
  intros w. unfold dict_setitem. destruct (w_heap w !! r); reflexivity.
Qed.

Lemma new_dict_same_walk : preserves same_walk new_dict.
Proof. intros w. reflexivity. Qed.

Lemma dict_setitem_grows r k v : preserves heap_grows (dict_setitem r k v).
Proof.
  intros w r' d' H. unfold dict_setitem.
  destruct (w_heap w !! r) as [d |] eqn:E; simpl; [| eauto].
  destruct (decide (r = r')) as [-> | Hne].
  - rewrite list_lookup_insert_eq by (eapply lookup_lt_Some; eauto).
    exists (dict_set k v d). split; [reflexivity |].
    intros k' Hk. apply dict_set_keys. congruence.
  - rewrite list_lookup_insert_ne by exact Hne. eauto.
Qed.

Lemma new_dict_grows : preserves heap_grows new_dict.
Proof.
  intros w r d H. simpl. exists d. split; [| auto].
  apply lookup_app_l_Some. exact H.
Qed.

#[global] Hint Resolve emit_only_log read_file_only_log
  open_rb_plus_only_log dict_items_only_log os_path_isdir_only_log
  os_path_isfile_only_log os_walk_files_only_log seek0_truncate_same_heap
  file_write_same_heap dict_setitem_same_walk new_dict_same_walk
  dict_setitem_grows new_dict_grows : frame.

Lemma only_log_to_same_heap {A} (m : M A) :
  preserves only_log m -> preserves same_heap m.
Proof. apply preserves_weaken, only_log_same_heap. Qed.

Lemma same_heap_to_same_walk {A} (m : M A) :
  preserves same_heap m -> preserves same_walk m.
Proof. apply preserves_weaken, same_heap_same_walk. Qed.

Lemma same_heap_to_grows {A} (m : M A) :
  preserves same_heap m -> preserves heap_grows m.
Proof. apply preserves_weaken, same_heap_grows. Qed.

#[global] Hint Resolve only_log_to_same_heap same_heap_to_same_walk
  same_heap_to_grows : frame.

Section ProgramFrames.

Context `{C : Collab}.

Lemma numpy_load_only_log p : preserves only_log (numpy_load p).
Proof. unfold numpy_load. frame_with only_log_refl only_log_trans. Qed.

Lemma get_cached_only_log name loc :
  preserves only_log (get_cached name loc).
Proof. apply numpy_load_only_log. Qed.

Lemma load_image_file_only_log p : preserves only_log (load_image_file p).
Proof. unfold load_image_file. frame_with only_log_refl only_log_trans. Qed.

Lemma call_face_locations_only_log img :
  preserves only_log (call_face_locations img).
Proof.
  unfold call_face_locations. frame_with only_log_refl only_log_trans.
Qed.

Lemma call_face_encodings_only_log img locs :
  preserves only_log (call_face_encodings img locs).
Proof.
  unfold call_face_encodings. frame_with only_log_refl only_log_trans.
Qed.

Lemma call_compare_faces_only_log known u :
  preserves only_log (call_compare_faces known u).
Proof.
  unfold call_compare_faces. frame_with only_log_refl only_log_trans.
Qed.

Lemma call_face_distance_only_log known u :
  preserves only_log (call_face_distance known u).
Proof.
  unfold call_face_distance. frame_with only_log_refl only_log_trans.
Qed.

#[local] Hint Resolve numpy_load_only_log get_cached_only_log
  load_image_file_only_log call_face_locations_only_log
  call_face_encodings_only_log call_compare_faces_only_log
  call_face_distance_only_log : frame.

Lemma first_encoding_only_log path_ file_ :
  preserves only_log (first_encoding path_ file_).
Proof. unfold first_encoding. frame_with only_log_refl only_log_trans. Qed.

Lemma add_cache_same_heap name enc loc :
  preserves same_heap (add_cache name enc loc).
Proof.
  unfold add_cache. cbv zeta.
  apply (preserves_bind _ same_heap_trans);
    [apply only_log_to_same_heap; auto with frame | intros _].
  frame_with same_heap_refl same_heap_trans.
Qed.

Lemma check_face_only_log ordered_map known u :
  preserves only_log (check_face ordered_map known u).
Proof.
  unfold check_face, iterate. cbv zeta beta iota.
  frame_with only_log_refl only_log_trans.
Qed.

Lemma check_faces_loop_only_log ordered_map unknowns :
  forall known identities,
    preserves only_log
      (check_faces_loop ordered_map known unknowns identities).
Proof.
  induction unknowns as [| u rest IH]; intros known identities; simpl.
  - apply (preserves_ret _ only_log_refl).
  - apply (preserves_bind _ only_log_trans);
      [apply check_face_only_log | intros r; apply IH].
Qed.

Lemma check_faces_only_log img mappings :
  preserves only_log (check_faces img mappings).
Proof.
  unfold check_faces.
  apply (preserves_bind _ only_log_trans); [auto with frame | intros om].
  cbv zeta.
  apply (preserves_bind _ only_log_trans); [auto with frame | intros locs].
  apply (preserves_bind _ only_log_trans); [auto with frame | intros encs].
  apply (preserves_bind _ only_log_trans);
    [apply check_faces_loop_only_log | intros r].
  apply (preserves_ret _ only_log_refl).
Qed.

#[local] Hint Resolve first_encoding_only_log add_cache_same_heap : frame.

Lemma check_and_add_same_walk r cache loc path_ file_ :
  preserves same_walk (check_and_add r cache loc path_ file_).
Proof.
  unfold check_and_add.
  apply (preserves_bind _ same_walk_trans);
    [apply (preserves_lift _ same_walk_refl) | intros i].
  cbv zeta. frame_with same_walk_refl same_walk_trans.
Qed.

Lemma check_and_add_grows r cache loc path_ file_ :
  preserves heap_grows (check_and_add r cache loc path_ file_).
Proof.
  unfold check_and_add.
  apply (preserves_bind _ heap_grows_trans);
    [apply (preserves_lift _ heap_grows_refl) | intros i].
  cbv zeta. frame_with heap_grows_refl heap_grows_trans.
Qed.

#[local] Hint Resolve check_and_add_same_walk check_and_add_grows : frame.

Lemma visit_file_grows r cache loc path file :
  preserves heap_grows (visit_file r cache loc path file).
Proof.
  unfold visit_file, print.
  frame_with heap_grows_refl heap_grows_trans.
Qed.

Lemma load_images_grows path mappings cache loc :
  preserves heap_grows (load_images path mappings cache loc).
Proof.
  unfold load_images, print.
  apply (preserves_bind _ heap_grows_trans).
  { destruct mappings; [apply (preserves_ret _ heap_grows_refl) |].
    auto with frame. }
  intros r.
  pose proof (visit_file_grows r cache loc path).
  frame_with heap_grows_refl heap_grows_trans.
Qed.

End ProgramFrames.

(** ** check_faces *)

Lemma count_events_app p l1 l2 :
  count_events p (l1 ++ l2) = count_events p l1 + count_events p l2.
Proof.
  unfold count_events. rewrite List.filter_app, length_app. reflexivity.
Qed.

Section Matcher.

Context `{C : Collab}.

(** By the time [face_distance] is called the map object is exhausted, so
    one pass of the loop body never ends normally. *)
Lemma check_face_raises ordered_map known u w :
  no_distance_from_nothing u ->
  exists e, fst (check_face ordered_map known u w) = inl e.
Proof.
  intros Hd. unfold check_face, iterate. cbv zeta beta iota.
  unfold call_compare_faces, call_face_distance, bind, emit, lift.
  destruct (compare_faces known u) as [e | ms]; simpl; [eauto |].
  destruct (face_distance [] u) as [e | ds] eqn:E; simpl; [eauto |].
  rewrite (Hd ds E). simpl. eauto.
Qed.

Lemma check_faces_loop_raises ordered_map known u rest identities w :
  no_distance_from_nothing u ->
  exists e,
    fst (check_faces_loop ordered_map known (u :: rest) identities w)
    = inl e.
Proof.
  intros Hd. simpl. unfold bind.
  destruct (check_face_raises ordered_map known u w Hd) as [e He].
  destruct (check_face ordered_map known u w) as [[e' | r] w'];
    simpl in *; [eauto | discriminate].
Qed.

(** Whatever the registry, one detected face makes [check_faces] raise. *)
Lemma check_faces_raises_on_face img r d w locs u us :
  w_heap w !! r = Some d ->
  face_locations img = inr locs ->
  face_encodings img (Some locs) = inr (u :: us) ->
  no_distance_from_nothing u ->
  exists e, fst (check_faces img r w) = inl e.
Proof.
  intros Hr Hl He Hd.
  unfold check_faces, bind, dict_items. rewrite Hr. cbv zeta.
  unfold call_face_locations, call_face_encodings, bind, emit, lift.
  simpl. rewrite Hl, He.
  match goal with
  | |- context [check_faces_loop ?om ?k (u :: us) ?ids ?w0] =>
      destruct (check_faces_loop_raises om k u us ids w0 Hd) as [e E];
      destruct (check_faces_loop om k (u :: us) ids w0) as [[e' | r'] w']
  end; simpl in *; [eauto | discriminate].
Qed.

(** ** numpy.argmin picks the first of the smallest elements *)

Section Argmin.

Hypothesis lt_irrefl : forall x, float_lt x x = false.
Hypothesis lt_trans :
  forall x y z, float_lt x y = true -> float_lt y z = true ->
                float_lt x z = true.
Hypothesis ge_trans :
  forall x y z, float_lt y x = false -> float_lt z y = false ->
                float_lt z x = false.




End Argmin.

End Matcher.

(** ** load_images *)

Lemma bind_inv {A B} (m : M A) (k : A -> M B) w b w' :
  bind m k w = (inr b, w') ->
  exists a w1, m w = (inr a, w1) /\ k a w1 = (inr b, w').
Proof.
  unfold bind. destruct (m w) as [[e | a] w1]; [discriminate |]. eauto.
Qed.

(** [file[ext_idx+1]] is one character long, and no member of [IMG_EXTs]
    is. *)
Lemma item_not_extension s i c :
  Str.item s i = inr c -> Str.mem c IMG_EXTs = false.
Proof.
  unfold Str.item. destruct (String.get i s) as [a |]; [| discriminate].
  intros H. injection H as <-. simpl.
  destruct (Ascii.eqb a "."); reflexivity.
Qed.

Lemma dict_setitem_ok r k v w w' :
  dict_setitem r k v w = (inr tt, w') ->
  exists d, w_heap w !! r = Some d /\
            w_heap w' = <[r := dict_set k v d]> (w_heap w).
Proof.
  unfold dict_setitem. destruct (w_heap w !! r) as [d |]; [| discriminate].
  intros H. injection H as <-. exists d. split; reflexivity.
Qed.

Section Loader.

Context `{C : Collab}.

(** The test of the directory branch never succeeds: a visited file is
    skipped, or the visit raises before anything is loaded. *)
Lemma visit_file_never_loads r cache loc path file w :
  visit_file r cache loc path file w = (inr tt, w) \/
  visit_file r cache loc path file w = (inl ValueError, w) \/
  visit_file r cache loc path file w = (inl IndexError, w).
Proof.
  unfold visit_file, bind, lift, Str.rindex.
  destruct (Str.rfind dot file) as [i |]; [| auto].
  destruct (Str.item file (i + 1)) as [e | c] eqn:E.
  - right. right. unfold Str.item in E.
    destruct (String.get (i + 1) file); [discriminate |].
    injection E as <-. reflexivity.
  - rewrite (item_not_extension _ _ _ E). left. reflexivity.
Qed.

Lemma for_each_visit_file_world r cache loc path files w :
  snd (for_each files (visit_file r cache loc path) w) = w.
Proof.
  induction files as [| f files IH]; simpl; [reflexivity |].
  unfold bind.
  destruct (visit_file_never_loads r cache loc path f w)
    as [-> | [-> | ->]]; auto.
Qed.

Lemma walk_world r cache loc path (walk : list (list string)) w :
  snd (for_each walk
         (fun files => for_each files (visit_file r cache loc path)) w)
  = w.
Proof.
  induction walk as [| files walk IH]; simpl; [reflexivity |].
  unfold bind.
  pose proof (for_each_visit_file_world r cache loc path files w) as H.
  destruct (for_each files (visit_file r cache loc path) w)
    as [[e | []] w1]; simpl in H; subst w1; auto.
Qed.

(** Loading a directory into an existing dict changes nothing at all: no
    entry is added, nothing is printed, no collaborator is called. *)
Lemma load_images_directory_world path r cache loc w :
  stat path w = KDir ->
  snd (load_images path (Some r) cache loc w) = w.
Proof.
  intros Hd. unfold load_images, bind, ret, os_path_isdir, os_walk_files.
  rewrite Hd.
  match goal with
  | |- context [for_each ?wk ?body w] =>
      pose proof (walk_world r cache loc path wk w) as H;
      destruct (for_each wk body w) as [[e | []] w1]
  end; simpl in H; subst w1; reflexivity.
Qed.

Lemma check_and_add_ok r cache loc path_ file_ w w' :
  check_and_add r cache loc path_ file_ w = (inr tt, w') ->
  exists i enc d,
    Str.rindex dot file_ = inr i /\
    w_heap w !! r = Some d /\
    w_heap w' = <[r := dict_set (Str.take i file_) enc d]> (w_heap w).
Proof.
  unfold check_and_add, bind, lift.
  destruct (Str.rindex dot file_) as [e | i]; [discriminate |].
  cbv zeta. destruct cache.
  - unfold try_except, bind.
    pose proof (get_cached_only_log file_ loc w) as (Hg & _).
    destruct (get_cached file_ loc w) as [[e | enc] w1]; simpl in Hg.
    + destruct (is_OSError e); [| discriminate].
      pose proof (first_encoding_only_log path_ file_ w1) as (Hf & _).
      destruct (first_encoding path_ file_ w1) as [[e' | enc] w2];
        simpl in Hf; [discriminate |].
      pose proof (add_cache_same_heap (Str.take i file_) enc loc w2)
        as (Ha & _).
      destruct (add_cache (Str.take i file_) enc loc w2)
        as [[e' | []] w3]; simpl in Ha; [discriminate |].
      intros H. apply dict_setitem_ok in H as (d & Hd & Hh).
      exists i, enc, d. rewrite Hh, Ha, Hf, Hg in *. auto.
    + unfold dict_setitem.
      destruct (w_heap w1 !! r) as [d |] eqn:Hd; simpl; [| discriminate].
      intros H. injection H as <-.
      exists i, enc, d. simpl. rewrite Hg in *. auto.
  - pose proof (first_encoding_only_log path_ file_ w) as (Hf & _).
    destruct (first_encoding path_ file_ w) as [[e' | enc] w2];
      simpl in Hf; [discriminate |].
    intros H. apply dict_setitem_ok in H as (d & Hd & Hh).
    exists i, enc, d. rewrite Hh, Hf in *. auto.
Qed.

(** A successful load of a single file is a successful [check_and_add] on
    the two halves of the path, after at most a warning. *)
Lemma load_images_file_inv path r cache loc w r' w' :
  w_walk w !! path = None ->
  load_images path (Some r) cache loc w = (inr r', w') ->
  r' = r /\
  exists w0, only_log w w0 /\
    check_and_add r cache loc (fst (os_path_split path))
      (snd (os_path_split path)) w0 = (inr tt, w').
Proof.
  intros Hw H. unfold load_images in H.
  apply bind_inv in H as (r0 & w0 & H0 & H). injection H0 as <- <-.
  apply bind_inv in H as (b & w0 & H0 & H).
  unfold os_path_isdir, stat in H0. rewrite Hw in H0.
  assert (b = false /\ w0 = w) as [-> ->]
    by (destruct (w_files w !! path); injection H0 as <- <-; auto).
  clear H0.
  apply bind_inv in H as (b & w0 & H0 & H).
  unfold os_path_isfile in H0. injection H0 as <- <-.
  destruct (stat path w); try discriminate.
  apply bind_inv in H as (i0 & w0 & H0 & H). unfold lift in H0.
  injection H0 as _ <-.
  apply bind_inv in H as (c & w0 & H0 & H). unfold lift in H0.
  injection H0 as _ <-.
  apply bind_inv in H as ([] & w0 & H0 & H).
  assert (only_log w w0) as Hol
    by (destruct (negb (Str.mem c IMG_EXTs)); injection H0 as <-;
        repeat split).
  clear H0.
  apply bind_inv in H as ([] & w1 & E & H). injection H as <- <-.
  split; [reflexivity |]. exists w0. auto.
Qed.

(** What a successful load of a single file does to the dict. *)
Lemma load_images_file_ok path r cache loc w r' w' :
  w_walk w !! path = None ->
  load_images path (Some r) cache loc w = (inr r', w') ->
  r' = r /\ w_walk w' = w_walk w /\
  exists i enc d,
    Str.rindex dot (snd (os_path_split path)) = inr i /\
    w_heap w !! r = Some d /\
    w_heap w' =
      <[r := dict_set (Str.take i (snd (os_path_split path))) enc d]>
        (w_heap w).
Proof.
  intros Hw H.
  apply load_images_file_inv in H as (-> & w0 & (Hh0 & Hw0 & _) & E);
    [| exact Hw].
  pose proof (check_and_add_same_walk r cache loc
                (fst (os_path_split path)) (snd (os_path_split path)) w0)
    as Hsw.
  rewrite E in Hsw. unfold same_walk in Hsw. simpl in Hsw.
  apply check_and_add_ok in E as (i & enc & d & Hi & Hd & Hh).
  split; [reflexivity |]. split; [congruence |].
  exists i, enc, d. rewrite Hh, Hh0 in *. auto.
Qed.

(** The encoding computed for a reference image depends on the file system
    only. *)
Lemma first_encoding_frame path_ file_ w w' :
  w_files w' = w_files w -> w_walk w' = w_walk w ->
  fst (first_encoding path_ file_ w') = fst (first_encoding path_ file_ w).
Proof.
  intros Hf Hw.
  unfold first_encoding, load_image_file, call_face_encodings, bind, emit,
    read_file, stat, lift.
  cbn [w_files w_walk add_log]. rewrite Hf, Hw.
  destruct (w_walk w !! os_path_join path_ file_); [reflexivity |].
  destruct (w_files w !! os_path_join path_ file_) as [bs |];
    [| reflexivity].
  destruct (decode_image bs) as [e | img]; [reflexivity |].
  destruct (face_encodings img None) as [e | encs]; [reflexivity |].
  destruct (py_index encs 0); reflexivity.
Qed.

(** Without the cache, the entry stored is the encoding of the image. *)
Lemma check_and_add_uncached_ok r loc path_ file_ w w' :
  check_and_add r false loc path_ file_ w = (inr tt, w') ->
  exists i enc d,
    Str.rindex dot file_ = inr i /\
    fst (first_encoding path_ file_ w) = inr enc /\
    w_heap w !! r = Some d /\
    w_heap w' = <[r := dict_set (Str.take i file_) enc d]> (w_heap w) /\
    w_files w' = w_files w /\ w_walk w' = w_walk w.
Proof.
  unfold check_and_add, bind, lift.
  destruct (Str.rindex dot file_) as [e | i]; [discriminate |].
  cbv zeta.
  pose proof (first_encoding_only_log path_ file_ w) as (Hh & Hw & Hf).
  destruct (first_encoding path_ file_ w) as [[e' | enc] w2];
    simpl in Hh, Hw, Hf; [discriminate |].
  unfold dict_setitem. destruct (w_heap w2 !! r) as [d |] eqn:Hd;
    [| discriminate].
  intros H. injection H as <-.
  exists i, enc, d. cbn [w_heap w_files w_walk set_heap fst].
  rewrite Hh in *. repeat split; auto.
Qed.

End Loader.

(** ** The encoding cache *)

Section Cache.

Context `{C : Collab}.

(** ['rb+'] does not create: without an entry file the write raises and
    the file system is as before. *)
Lemma add_cache_missing name enc loc w :
  stat (entry_path name loc) w = KNone ->
  add_cache name enc loc w = (inl FileNotFoundError, w).
Proof.
  intros H. unfold add_cache, bind, open_rb_plus. cbv zeta.
  rewrite H. reflexivity.
Qed.

Lemma get_cached_missing name loc w :
  stat (entry_path name loc) w = KNone ->
  fst (get_cached name loc w) = inl FileNotFoundError.
Proof.
  intros H. unfold get_cached, numpy_load, bind, emit, read_file.
  replace (stat (entry_path name loc)
             (add_log (EvNumpyLoad (entry_path name loc)) w))
    with (stat (entry_path name loc) w) by reflexivity.
  rewrite H. reflexivity.
Qed.

(** With an entry file in place the write leaves exactly the raw bytes of
    the encoding in it. *)
Lemma add_cache_existing name enc loc w old :
  stat (entry_path name loc) w = KFile old ->
  add_cache name enc loc w =
    (inr tt,
     add_log (EvWrite (entry_path name loc) (tobytes enc))
       (set_files (<[entry_path name loc := tobytes enc]> (w_files w)) w)).
Proof.
  intros H. unfold add_cache, bind, open_rb_plus. cbv zeta.
  rewrite H.
  unfold seek0_truncate, file_write. cbn [w_files set_files].
  rewrite lookup_insert_eq. unfold default, id.
  rewrite drop_nil, app_nil_r, insert_insert_eq. reflexivity.
Qed.

(** Reading back what was written hands the raw bytes to [numpy.load]. *)
Lemma write_then_read_existing name enc loc w old :
  stat (entry_path name loc) w = KFile old ->
  fst ((add_cache name enc loc ;;; get_cached name loc) w)
  = numpy_read (tobytes enc).
Proof.
  intros H. unfold bind at 1. rewrite (add_cache_existing _ _ _ _ _ H).
  unfold get_cached, numpy_load, bind, emit, read_file, stat, lift.
  cbn [w_walk w_files add_log set_files].
  unfold stat in H.
  destruct (w_walk w !! entry_path name loc); [discriminate |].
  rewrite lookup_insert_eq. reflexivity.
Qed.

End Cache.

(** * The claims *)

(** C1. A non-empty registry and a probe face: [check_faces] is to compute
    the distance to every known embedding, take the nearest identity, and
    label the face with its name when the match flag is set.  On the
    registry A = (0,0), B = (100,100) and a probe face at (1,1), with
    collaborators that accept A, the call does not label the face: the map
    object [known_encodings] is drained by [compare_faces], [face_distance]
    is handed no encoding, and [numpy.argmin] raises [ValueError] on the
    empty array.  With collaborators that take [len] of their argument the
    call raises [TypeError] one step earlier. *)
Theorem check_faces_nearest_example_raises :
  let w := Sample.with_dict Sample.two_known Sample.fresh in
  fst (@check_faces Double.lenient Sample.probe_near_A 0 w) = inl ValueError
  /\ w_log (snd (@check_faces Double.lenient Sample.probe_near_A 0 w))
     = [EvFaceLocations; EvFaceEncodings;
        EvCompareFaces [Sample.A; Sample.B]; EvFaceDistance []]
  /\ fst (@check_faces Double.strict Sample.probe_near_A 0 w) = inl TypeError.
Proof. repeat split; vm_compute; reflexivity. Qed.

(** C2. Matching one or more detected faces against an empty registry is to
    give "Unknown" for each face without an error.  The code raises instead:
    with no known encoding there is no distance, and [numpy.argmin] of the
    empty array raises (unless a collaborator raised before). *)
Theorem check_faces_empty_registry_raises (C : Collab) (img : image)
    (r : ref) (w : World) (locs : list box) (u : ndarray) (us : list ndarray) :
  w_heap w !! r = Some [] ->
  face_locations img = inr locs ->
  face_encodings img (Some locs) = inr (u :: us) ->
  no_distance_from_nothing u ->
  exists e, fst (check_faces img r w) = inl e.
Proof. intros. eapply check_faces_raises_on_face; eauto. Qed.

Lemma check_faces_empty_registry_raises_witness :
  exists e,
    fst (@check_faces Double.lenient Sample.probe_near_A 0
           (Sample.with_dict [] Sample.fresh)) = inl e.
Proof.
  apply (check_faces_empty_registry_raises Double.lenient
           Sample.probe_near_A 0 (Sample.with_dict [] Sample.fresh)
           [7] [1; 1]%Z []).
  - reflexivity.
  - reflexivity.
  - reflexivity.
  - intros ds H. vm_compute in H. injection H as <-. reflexivity.
Defined.

(** C3. Writing an encoding under a name and reading that name back is to
    return the encoding.  In a cache directory without an entry for the name
    the write raises [FileNotFoundError] and leaves the world as it was, and
    so does the read; with an (empty) entry file in place the write succeeds
    and the read hands the raw bytes to the [.npy] reader, which refuses
    them. *)
Theorem cache_write_then_read_fails (C : Collab) :
  add_cache "alice" [3; 4]%Z ".cache" Sample.fresh
    = (inl FileNotFoundError, Sample.fresh)
  /\ fst (get_cached "alice" ".cache" Sample.fresh) = inl FileNotFoundError
  /\ fst ((add_cache "alice" [3; 4]%Z ".cache" ;;;
           @get_cached Double.lenient "alice" ".cache") Sample.with_entry)
     = inl ValueError.
Proof.
  split; [| split].
  - apply add_cache_missing. reflexivity.
  - apply get_cached_missing. reflexivity.
  - vm_compute. reflexivity.
Qed.

(** C4. Loading the same directory twice with caching on is to call the
    embedding collaborator once per identity.  For the directory [faces]
    holding [alice.jpg] both loads return the dict empty and the log of the
    world stays empty: the embedding collaborator is never called and nothing
    is read from or written to the cache. *)
Theorem load_directory_twice_never_embeds (C : Collab) :
  (r <~ load_images "faces" None true ".cache" ;;
   load_images "faces" (Some r) true ".cache") Sample.fresh
  = (inr 0, Sample.with_dict [] Sample.fresh).
Proof. vm_compute. reflexivity. Qed.

(** C5. Loading a directory is to put every file with a recognised image
    extension into the registry under its stem.  For the directory [faces]
    holding [alice.jpg] and [notes.txt] the load returns an empty dict and
    prints nothing, with caching on or off. *)
Theorem load_directory_skips_images (C : Collab) (cache : bool) :
  load_images "faces" None cache ".cache" Sample.fresh
  = (inr 0, Sample.with_dict [] Sample.fresh).
Proof. destruct cache; vm_compute; reflexivity. Qed.

(** C6. The cache write is to create the entry file when it does not exist.
    In a cache directory without [alice.encoding] the write of any encoding
    raises [FileNotFoundError], and there is still no such file afterwards. *)
Theorem add_cache_does_not_create (C : Collab) (enc : ndarray) :
  add_cache "alice" enc ".cache" Sample.fresh
    = (inl FileNotFoundError, Sample.fresh)
  /\ stat ".cache/alice.encoding"
       (snd (add_cache "alice" enc ".cache" Sample.fresh)) = KNone.
Proof.
  assert (add_cache "alice" enc ".cache" Sample.fresh
          = (inl FileNotFoundError, Sample.fresh)) as H
    by (apply add_cache_missing; reflexivity).
  split; [exact H |]. rewrite H. reflexivity.
Qed.

(** C7. Two known identities at the same smallest distance from the probe:
    the one inserted first is to be selected.  On the registry
    first = (0,0), second = (2,0) and a probe face at (1,0), both at squared
    distance 1, [check_faces] selects neither: it raises [ValueError] as in
    C1, although [numpy_argmin] on the two equal distances gives index 0. *)
Theorem check_faces_tie_raises :
  fst (@check_faces Double.lenient Sample.probe_between 0
         (Sample.with_dict Sample.tied Sample.fresh)) = inl ValueError
  /\ @face_distance Double.lenient (map snd Sample.tied) [1; 0]%Z
     = inr [1; 1]%Z
  /\ @numpy_argmin Double.lenient [1; 1]%Z = inr 0.
Proof. repeat split; vm_compute; reflexivity. Qed.

(** On the single-file route the cache is read under the file name with its
    extension and written under the stem, so a second load misses again and
    calls the embedding collaborator a second time. *)
Lemma load_file_twice_embeds_twice :
  let run :=
    (r <~ @load_images Double.lenient "faces/alice.jpg" None true ".cache" ;;
     @load_images Double.lenient "faces/alice.jpg" (Some r) true ".cache")
      Sample.with_entry in
  fst run = inr 0
  /\ w_heap (snd run) = [[("alice", [3; 4]%Z)]]
  /\ count_events is_embedding_call (w_log (snd run)) = 2
  /\ count_events is_cache_write (w_log (snd run)) = 2.
Proof. repeat split; vm_compute; reflexivity. Qed.

(** A visited file without a dot stops the directory load with
    [ValueError]. *)
Lemma load_directory_file_without_dot (C : Collab) :
  fst (load_images "d" None true ".cache"
         (mkWorld ∅ (<["d" := [["README"]]]> ∅) [] []))
  = inl ValueError.
Proof. vm_compute. reflexivity. Qed.

(** Whenever two successive loads of the same file into the same dict both
    return, the dict has exactly one entry under the file's stem, the keys of
    the dict are those after the first load, every other entry keeps its
    value, and without the cache the dict after the second load is the dict
    after the first.  And whatever path [load_images] is given and however
    the call ends, every dict object keeps all the keys it had. *)
Theorem load_images_same_file_twice (C : Collab) (path : string)
    (cache : bool) (loc : string) (r r1 r2 : ref) (w w1 w2 : World)
    (d0 : registry) :
  w_walk w !! path = None ->
  w_heap w !! r = Some d0 ->
  NoDup (dict_keys d0) ->
  load_images path (Some r) cache loc w = (inr r1, w1) ->
  load_images path (Some r1) cache loc w1 = (inr r2, w2) ->
  (exists i d1 d2,
     Str.rindex dot (snd (os_path_split path)) = inr i /\
     r1 = r /\ r2 = r /\
     w_heap w1 !! r = Some d1 /\ w_heap w2 !! r = Some d2 /\
     dict_count (Str.take i (snd (os_path_split path))) d1 = 1 /\
     dict_count (Str.take i (snd (os_path_split path))) d2 = 1 /\
     dict_keys d2 = dict_keys d1 /\
     (forall k, In k (dict_keys d0) -> In k (dict_keys d2)) /\
     (forall k, k <> Str.take i (snd (os_path_split path)) ->
                dict_get k d2 = dict_get k d0) /\
     (cache = false -> d2 = d1))
  /\ (forall path' mappings cache' loc' w0,
        heap_grows w0 (snd (load_images path' mappings cache' loc' w0))).
Proof.
  intros Hw Hr Hnd L1 L2. split; [| intros; apply load_images_grows].
  pose proof L1 as L1'. pose proof L2 as L2'.
  apply load_images_file_ok in L1
    as (-> & Hw1 & i & e1 & d & Hi & Hd & Hh1); [| exact Hw].
  rewrite Hr in Hd. injection Hd as <-.
  apply load_images_file_ok in L2
    as (_ & Hw2 & i' & e2 & d1 & Hi' & Hd1 & Hh2); [| congruence].
  rewrite Hi in Hi'. injection Hi' as <-.
  set (name := Str.take i (snd (os_path_split path))) in *.
  assert (r < length (w_heap w)) as Hlt by (eapply lookup_lt_Some; eauto).
  assert (d1 = dict_set name e1 d0) as ->.
  { rewrite Hh1, list_lookup_insert_eq in Hd1 by exact Hlt. congruence. }
  assert (r2 = r) as ->.
  { apply load_images_file_inv in L2' as [-> _]; [reflexivity | congruence]. }
  exists i, (dict_set name e1 d0), (dict_set name e2 (dict_set name e1 d0)).
  split; [exact Hi |]. split; [reflexivity |]. split; [reflexivity |].
  split; [exact Hd1 |]. split.
  { rewrite Hh2, list_lookup_insert_eq; [reflexivity |].
    rewrite Hh1, length_insert. exact Hlt. }
  split; [apply dict_count_set; exact Hnd |].
  split; [apply dict_count_set, dict_set_NoDup; exact Hnd |].
  split; [apply dict_set_present, dict_set_key_in |].
  split; [intros k Hk; apply dict_set_keys, dict_set_keys; exact Hk |].
  split; [intros k Hk; rewrite !dict_get_set_ne by exact Hk; reflexivity |].
  intros ->.
  apply load_images_file_inv in L1' as (_ & wa & (Hha & Hwa & Hfa) & E1);
    [| exact Hw].
  apply load_images_file_inv in L2' as (_ & wb & (Hhb & Hwb & Hfb) & E2);
    [| congruence].
  apply check_and_add_uncached_ok in E1
    as (i1 & x1 & da & Hi1 & Hx1 & Hda & Hha1 & Hf1 & Hw1').
  apply check_and_add_uncached_ok in E2
    as (i2 & x2 & db & Hi2 & Hx2 & Hdb & Hhb2 & _ & _).
  rewrite (first_encoding_frame _ _ wa wb) in Hx2 by congruence.
  rewrite Hx1 in Hx2. injection Hx2 as <-.
  rewrite Hi in Hi1, Hi2. injection Hi1 as <-. injection Hi2 as <-.
  fold name in Hha1, Hhb2.
  assert (x1 = e1) as ->.
  { rewrite Hha, Hr in Hda. injection Hda as <-.
    rewrite Hha1, Hha in Hd1.
    rewrite list_lookup_insert_eq in Hd1 by exact Hlt.
    injection Hd1 as Hd1.
    apply (f_equal (dict_get name)) in Hd1.
    rewrite !dict_get_set_eq in Hd1. congruence. }
  assert (w_heap w2 !! r
          = Some (dict_set name e2 (dict_set name e1 d0))) as Hd2.
  { rewrite Hh2, list_lookup_insert_eq; [reflexivity |].
    rewrite Hh1, length_insert. exact Hlt. }
  rewrite Hhb, Hd1 in Hdb. injection Hdb as <-.
  rewrite Hhb2, Hhb in Hd2.
  rewrite list_lookup_insert_eq in Hd2
    by (rewrite Hh1, length_insert; exact Hlt).
  injection Hd2 as Hd2. rewrite <- Hd2. apply dict_set_twice.
Qed.

Lemma load_images_same_file_twice_witness :
  exists i d1 d2,
    Str.rindex dot "alice.jpg" = inr i /\
    d1 = [("bob", [9; 9]%Z); ("alice", [3; 4]%Z)] /\
    d2 = d1 /\
    dict_count (Str.take i "alice.jpg") d2 = 1.
Proof.
  pose (w0 := Sample.with_dict [("bob", [9; 9]%Z)] Sample.fresh).
  pose (w1 := snd (@load_images Double.lenient "faces/alice.jpg" (Some 0)
                     false ".cache" w0)).
  pose (w2 := snd (@load_images Double.lenient "faces/alice.jpg" (Some 0)
                     false ".cache" w1)).
  destruct (load_images_same_file_twice Double.lenient "faces/alice.jpg"
              false ".cache" 0 0 0 w0 w1 w2 [("bob", [9; 9]%Z)])
    as [(i & d1 & d2 & Hi & _ & _ & H1 & H2 & _ & Hc & _) _].
  - reflexivity.
  - reflexivity.
  - apply NoDup_singleton.
  - vm_compute. reflexivity.
  - vm_compute. reflexivity.
  - exists i, d1, d2. vm_compute in Hi, H1, H2.
    injection H1 as <-. injection H2 as <-. auto.
Defined.

(** C9. [check_faces] never modifies the registry: after the call, whether
    it returned or raised, the heap holds the same dict objects with the same
    entries, and the file system is the same too. *)
Theorem check_faces_registry_unchanged (C : Collab) (img : image) (r : ref)
    (w : World) :
  w_heap (snd (check_faces img r w)) = w_heap w
  /\ w_heap (snd (check_faces img r w)) !! r = w_heap w !! r
  /\ w_files (snd (check_faces img r w)) = w_files w.
Proof.
  destruct (check_faces_only_log img r w) as (Hh & _ & Hf).
  rewrite Hh. auto.
Qed.

(** C10. When detection finds no face, [check_faces] returns two empty
    sequences without an error, for every registry, and calls neither
    [compare_faces] nor [face_distance]: the log grows by the two detection
    calls only. *)
Theorem check_faces_no_face (C : Collab) (img : image) (r : ref) (w : World)
    (d : registry) :
  w_heap w !! r = Some d ->
  face_locations img = inr [] ->
  face_encodings img (Some []) = inr [] ->
  check_faces img r w
    = (inr ([], []), add_log EvFaceEncodings (add_log EvFaceLocations w))
  /\ count_events is_matching_call (w_log (snd (check_faces img r w)))
     = count_events is_matching_call (w_log w).
Proof.
  intros Hr Hl He.
  assert (check_faces img r w
          = (inr ([], []), add_log EvFaceEncodings (add_log EvFaceLocations w)))
    as H.
  { unfold check_faces, bind, dict_items. rewrite Hr. cbv zeta.
    unfold call_face_locations, call_face_encodings, bind, emit, lift.
    rewrite Hl, He. reflexivity. }
  split; [exact H |]. rewrite H. cbn [snd add_log w_log].
  rewrite !count_events_app. cbn. lia.
Qed.

Lemma check_faces_no_face_witness :
  @check_faces Double.lenient Sample.no_face 0
    (Sample.with_dict Sample.two_known Sample.fresh)
  = (inr ([], []),
     add_log EvFaceEncodings
       (add_log EvFaceLocations
          (Sample.with_dict Sample.two_known Sample.fresh))).
Proof.
  apply (check_faces_no_face Double.lenient Sample.no_face 0
           (Sample.with_dict Sample.two_known Sample.fresh)
           Sample.two_known); reflexivity.
Defined.

(** * Further properties of the module *)

(** ** More frames *)

Lemma bind_ok {A B} (m : M A) (k : A -> M B) w a w1 :
  m w = (inr a, w1) -> bind m k w = k a w1.
Proof. intros H. unfold bind. rewrite H. reflexivity. Qed.

Lemma bind_raise {A B} (m : M A) (k : A -> M B) w e w1 :
  m w = (inl e, w1) -> bind m k w = (inl e, w1).
Proof. intros H. unfold bind. rewrite H. reflexivity. Qed.

Lemma log_grows_refl w : log_grows w w.
Proof. exists []. rewrite app_nil_r. reflexivity. Qed.

Lemma log_grows_trans w1 w2 w3 :
  log_grows w1 w2 -> log_grows w2 w3 -> log_grows w1 w3.
Proof.
  intros [l1 H1] [l2 H2]. exists (l1 ++ l2)%list.
  rewrite H2, H1, app_assoc. reflexivity.
Qed.

Lemma log_same_grows w w' : w_log w' = w_log w -> log_grows w w'.
Proof. intros E. exists []. rewrite app_nil_r. exact E. Qed.

Lemma others_same_refl r w : others_same r w w.
Proof. intros r0 _. reflexivity. Qed.

Lemma others_same_trans r w1 w2 w3 :
  others_same r w1 w2 -> others_same r w2 w3 -> others_same r w1 w3.
Proof. intros H1 H2 r0 Hr. rewrite (H2 r0 Hr). apply H1, Hr. Qed.

Lemma same_files_refl w : same_files w w.
Proof. split; reflexivity. Qed.

Lemma same_files_trans w1 w2 w3 :
  same_files w1 w2 -> same_files w2 w3 -> same_files w1 w3.
Proof. unfold same_files. intuition congruence. Qed.

Lemma same_names_refl w : same_names w w.
Proof. split; [reflexivity | tauto]. Qed.

Lemma same_names_trans w1 w2 w3 :
  same_names w1 w2 -> same_names w2 w3 -> same_names w1 w3.
Proof.
  intros [Hw1 H1] [Hw2 H2]. split; [congruence |].
  intros p. rewrite (H2 p). apply H1.
Qed.

Lemma same_heap_others r w w' : same_heap w w' -> others_same r w w'.
Proof. intros [E _] r0 _. rewrite E. reflexivity. Qed.

Lemma only_log_same_files w w' : only_log w w' -> same_files w w'.
Proof. unfold only_log, same_files. tauto. Qed.

Lemma same_files_same_names w w' : same_files w w' -> same_names w w'.
Proof. intros [Hf Hw]. split; [exact Hw |]. intros p. rewrite Hf. tauto. Qed.

Lemma emit_log_grows e : preserves log_grows (emit e).
Proof. intros w. exists [e]. reflexivity. Qed.

Lemma read_file_log_grows p : preserves log_grows (read_file p).
Proof.
  intros w. unfold read_file. destruct (stat p w); apply log_grows_refl.
Qed.

Lemma open_rb_plus_log_grows p : preserves log_grows (open_rb_plus p).
Proof.
  intros w. unfold open_rb_plus. destruct (stat p w); apply log_grows_refl.
Qed.

Lemma seek0_truncate_log_grows p : preserves log_grows (seek0_truncate p).
Proof. intros w. apply log_same_grows. reflexivity. Qed.

Lemma file_write_log_grows p pos data :
  preserves log_grows (file_write p pos data).
Proof. intros w. exists [EvWrite p data]. reflexivity. Qed.

Lemma dict_setitem_log_grows r k v : preserves log_grows (dict_setitem r k v).
Proof.
  intros w. unfold dict_setitem.
  destruct (w_heap w !! r); apply log_same_grows; reflexivity.
Qed.

Lemma dict_setitem_others r k v : preserves (others_same r) (dict_setitem r k v).
Proof.
  intros w r0 Hr. unfold dict_setitem.
  destruct (w_heap w !! r); simpl; [| reflexivity].
  apply list_lookup_insert_ne. congruence.
Qed.

Lemma dict_setitem_same_files r k v : preserves same_files (dict_setitem r k v).
Proof.
  intros w. unfold dict_setitem.
  destruct (w_heap w !! r); split; reflexivity.
Qed.

Lemma new_dict_same_files : preserves same_files new_dict.
Proof. intros w. split; reflexivity. Qed.

Lemma new_dict_log_grows : preserves log_grows new_dict.
Proof. intros w. apply log_same_grows. reflexivity. Qed.

Lemma only_log_to_others {A} r (m : M A) :
  preserves only_log m -> preserves (others_same r) m.
Proof.
  apply preserves_weaken. intros w w' H.
  apply same_heap_others, only_log_same_heap, H.
Qed.

Lemma same_heap_to_others {A} r (m : M A) :
  preserves same_heap m -> preserves (others_same r) m.
Proof. apply preserves_weaken, same_heap_others. Qed.

Lemma only_log_to_same_files {A} (m : M A) :
  preserves only_log m -> preserves same_files m.
Proof. apply preserves_weaken, only_log_same_files. Qed.

Lemma same_files_to_same_names {A} (m : M A) :
  preserves same_files m -> preserves same_names m.
Proof. apply preserves_weaken, same_files_same_names. Qed.

(** Guarded by ['rb+'], the write replaces the content of a file that is
    there and never adds a file. *)
Lemma add_cache_same_names name enc loc :
  preserves same_names (add_cache name enc loc).
Proof.
  intros w. unfold add_cache, bind, open_rb_plus. cbv zeta.
  destruct (stat (entry_path name loc) w) as [| | old] eqn:E;
    try apply same_names_refl.
  unfold seek0_truncate, file_write. cbn [snd w_files w_walk set_files add_log].
  split; [reflexivity |]. intros p.
  assert (is_Some (w_files w !! entry_path name loc)) as Hin.
  { unfold stat in E. destruct (w_walk w !! entry_path name loc);
      [discriminate |].
    destruct (w_files w !! entry_path name loc); [eauto | discriminate]. }
  unfold add_log, set_files. cbn [w_files].
  destruct (decide (entry_path name loc = p)) as [<- | Hne].
  - split; intros _; [exact Hin |].
    match goal with
    | |- is_Some (<[?k := ?v]> ?m !! ?k) =>
        exists v; apply lookup_insert_eq
    end.
  - rewrite !lookup_insert_ne by exact Hne. tauto.
Qed.

Section MoreFrames.

Context `{C : Collab}.

Lemma numpy_load_log_grows p : preserves log_grows (numpy_load p).
Proof.
  unfold numpy_load.
  apply (preserves_bind _ log_grows_trans); [apply emit_log_grows | intros _].
  apply (preserves_bind _ log_grows_trans);
    [apply read_file_log_grows | intros bs].
  apply (preserves_lift _ log_grows_refl).
Qed.

Lemma first_encoding_log_grows path_ file_ :
  preserves log_grows (first_encoding path_ file_).
Proof.
  unfold first_encoding, load_image_file, call_face_encodings.
  repeat first
    [ apply emit_log_grows
    | apply read_file_log_grows
    | apply (preserves_bind _ log_grows_trans); [| intros ?]
    | apply (preserves_lift _ log_grows_refl) ].
Qed.

Lemma add_cache_log_grows name enc loc :
  preserves log_grows (add_cache name enc loc).
Proof.
  unfold add_cache. cbv zeta.
  repeat first
    [ apply open_rb_plus_log_grows
    | apply seek0_truncate_log_grows
    | apply file_write_log_grows
    | apply (preserves_bind _ log_grows_trans); [| intros ?] ].
Qed.

Lemma check_and_add_log_grows r cache loc path_ file_ :
  preserves log_grows (check_and_add r cache loc path_ file_).
Proof.
  unfold check_and_add, get_cached.
  apply (preserves_bind _ log_grows_trans);
    [apply (preserves_lift _ log_grows_refl) | intros i].
  cbv zeta.
  repeat first
    [ apply numpy_load_log_grows
    | apply first_encoding_log_grows
    | apply add_cache_log_grows
    | apply dict_setitem_log_grows
    | apply (preserves_bind _ log_grows_trans); [| intros ?]
    | apply (preserves_try _ log_grows_trans)
    | apply preserves_if ].
Qed.

Lemma check_and_add_others r cache loc path_ file_ :
  preserves (others_same r) (check_and_add r cache loc path_ file_).
Proof.
  unfold check_and_add.
  apply (preserves_bind _ (others_same_trans r));
    [apply (preserves_lift _ (others_same_refl r)) | intros i].
  cbv zeta.
  repeat first
    [ apply dict_setitem_others
    | apply only_log_to_others, get_cached_only_log
    | apply only_log_to_others, first_encoding_only_log
    | apply same_heap_to_others, add_cache_same_heap
    | apply (preserves_bind _ (others_same_trans r)); [| intros ?]
    | apply (preserves_try _ (others_same_trans r))
    | apply preserves_if ].
Qed.

Lemma check_and_add_uncached_same_files r loc path_ file_ :
  preserves same_files (check_and_add r false loc path_ file_).
Proof.
  unfold check_and_add.
  apply (preserves_bind _ same_files_trans);
    [apply (preserves_lift _ same_files_refl) | intros i].
  cbv zeta.
  apply (preserves_bind _ same_files_trans);
    [apply only_log_to_same_files, first_encoding_only_log | intros enc].
  apply dict_setitem_same_files.
Qed.

Lemma check_and_add_same_names r cache loc path_ file_ :
  preserves same_names (check_and_add r cache loc path_ file_).
Proof.
  unfold check_and_add.
  apply (preserves_bind _ same_names_trans);
    [apply (preserves_lift _ same_names_refl) | intros i].
  cbv zeta.
  repeat first
    [ apply add_cache_same_names
    | apply same_files_to_same_names, dict_setitem_same_files
    | apply same_files_to_same_names, only_log_to_same_files,
        get_cached_only_log
    | apply same_files_to_same_names, only_log_to_same_files,
        first_encoding_only_log
    | apply (preserves_bind _ same_names_trans); [| intros ?]
    | apply (preserves_try _ same_names_trans)
    | apply preserves_if ].
Qed.

(** The shape every frame of [load_images] takes: a relation kept by the
    bookkeeping steps and by [check_and_add] is kept by the whole call on a
    given dict. *)
Lemma load_images_preserves (R : World -> World -> Prop) path r cache loc :
  (forall w, R w w) ->
  (forall w1 w2 w3, R w1 w2 -> R w2 w3 -> R w1 w3) ->
  (forall w w', only_log w w' -> R w w') ->
  (forall msg, preserves R (print msg)) ->
  (forall path_ file_, preserves R (check_and_add r cache loc path_ file_)) ->
  preserves R (load_images path (Some r) cache loc).
Proof.
  intros Hrefl Htrans Hol Hprint Hca.
  assert (forall A (m : M A), preserves only_log m -> preserves R m) as Hw
    by (intros A m; apply preserves_weaken, Hol).
  intros w. unfold load_images.
  rewrite (bind_ok (ret r) _ w r w eq_refl). revert w.
  match goal with
  | |- forall w, R w (snd (@?m w)) => change (preserves R m)
  end.
  unfold visit_file.
  repeat first
    [ apply Hprint
    | apply Hca
    | apply Hw, os_path_isdir_only_log
    | apply Hw, os_path_isfile_only_log
    | apply Hw, os_walk_files_only_log
    | apply (preserves_bind _ Htrans); [| intros ?]
    | apply (preserves_for_each _ Hrefl Htrans); intros ?
    | apply (preserves_ret _ Hrefl)
    | apply (preserves_raise _ Hrefl)
    | apply (preserves_lift _ Hrefl)
    | apply preserves_if ].
Qed.

End MoreFrames.

(** ** Single steps *)

Lemma stat_add_log p e w : stat p (add_log e w) = stat p w.
Proof. reflexivity. Qed.

Lemma stat_set_heap p h w : stat p (set_heap h w) = stat p w.
Proof. reflexivity. Qed.

Lemma load_images_None `{C : Collab} path cache loc w :
  load_images path None cache loc w
  = load_images path (Some (length (w_heap w))) cache loc
      (set_heap (w_heap w ++ [[]]) w).
Proof. reflexivity. Qed.

Section Steps.

Context `{C : Collab}.

Lemma get_cached_hit name loc w bs :
  stat (entry_path name loc) w = KFile bs ->
  get_cached name loc w
  = (numpy_read bs, add_log (EvNumpyLoad (entry_path name loc)) w).
Proof.
  intros H. unfold get_cached, numpy_load, bind, emit, read_file, lift.
  rewrite stat_add_log, H. reflexivity.
Qed.

Lemma get_cached_miss name loc w :
  stat (entry_path name loc) w = KNone ->
  get_cached name loc w
  = (inl FileNotFoundError, add_log (EvNumpyLoad (entry_path name loc)) w).
Proof.
  intros H. unfold get_cached, numpy_load, bind, emit, read_file, lift.
  rewrite stat_add_log, H. reflexivity.
Qed.

Lemma first_encoding_run path_ file_ w bs img encs :
  stat (os_path_join path_ file_) w = KFile bs ->
  decode_image bs = inr img ->
  face_encodings img None = inr encs ->
  first_encoding path_ file_ w
  = (py_index encs 0,
     add_log EvFaceEncodings
       (add_log (EvLoadImageFile (os_path_join path_ file_)) w)).
Proof.
  intros Hs Hd He.
  unfold first_encoding, load_image_file, call_face_encodings, bind, emit,
    read_file, lift.
  rewrite stat_add_log, Hs, Hd, He. reflexivity.
Qed.

End Steps.

(** ** load_images: paths *)

Lemma walk_result `{C : Collab} r cache loc path (walk : list (list string)) w :
  let res := fst (for_each walk
                    (fun files => for_each files (visit_file r cache loc path))
                    w) in
  res = inr tt \/ res = inl ValueError \/ res = inl IndexError.
Proof.
  assert (forall files w0,
            let res := fst (for_each files (visit_file r cache loc path) w0) in
            res = inr tt \/ res = inl ValueError \/ res = inl IndexError)
    as Hfiles.
  { induction files as [| f files IH]; intros w0; simpl; [auto |].
    unfold bind.
    destruct (visit_file_never_loads r cache loc path f w0)
      as [-> | [-> | ->]]; simpl; first [apply IH | auto]. }
  induction walk as [| files walk IH] in w |- *; simpl; [auto |].
  unfold bind.
  pose proof (Hfiles files w) as Hf.
  pose proof (for_each_visit_file_world r cache loc path files w) as Hw.
  destruct (for_each files (visit_file r cache loc path) w)
    as [[e | []] w1]; simpl in *; subst w1; [| apply IH].
  destruct Hf as [Hf | [Hf | Hf]]; [discriminate | |]; injection Hf as ->;
    auto.
Qed.

(** X1. A path that is neither a directory nor a file makes [load_images]
    raise [RuntimeError]; a dict passed in is left as it was and nothing is
    logged. *)
Theorem load_images_invalid_path (C : Collab) (path : string) (r : ref)
    (cache : bool) (loc : string) (w : World) :
  stat path w = KNone ->
  load_images path (Some r) cache loc w = (inl RuntimeError, w).
Proof.
  intros H.
  unfold load_images, bind, ret, os_path_isdir, os_path_isfile, raise.
  rewrite H. cbv beta iota. rewrite H. reflexivity.
Qed.

Lemma load_images_invalid_path_witness :
  @load_images Double.lenient "nowhere" (Some 0) true ".cache"
    Scenario.empty_cache
  = (inl RuntimeError, Scenario.empty_cache).
Proof.
  apply (load_images_invalid_path Double.lenient "nowhere" 0 true ".cache"
           Scenario.empty_cache).
  reflexivity.
Defined.

(** X2. Loading a directory into a given dict never changes the world: no
    entry is added or replaced, no file is touched, nothing is printed and no
    collaborator is called, whatever the directory holds.  The call returns
    the dict, or raises [ValueError] (a visited name without a dot) or
    [IndexError] (a visited name ending in its last dot). *)
Theorem load_images_directory_no_effect (C : Collab) (path : string)
    (r : ref) (cache : bool) (loc : string) (w : World) :
  stat path w = KDir ->
  snd (load_images path (Some r) cache loc w) = w
  /\ (fst (load_images path (Some r) cache loc w) = inr r
      \/ fst (load_images path (Some r) cache loc w) = inl ValueError
      \/ fst (load_images path (Some r) cache loc w) = inl IndexError).
Proof.
  intros Hd. split; [apply load_images_directory_world; exact Hd |].
  unfold load_images, bind, ret, os_path_isdir, os_walk_files.
  rewrite Hd.
  match goal with
  | |- context [for_each ?wk ?body w] =>
      pose proof (walk_result r cache loc path wk w) as H;
      destruct (for_each wk body w) as [[e | []] w1]
  end; simpl in *; [| auto].
  destruct H as [H | [H | H]]; [discriminate | |]; injection H as ->; auto.
Qed.

Lemma load_images_directory_no_effect_witness :
  snd (@load_images Double.lenient "faces" (Some 0) true ".cache"
         Scenario.empty_cache) = Scenario.empty_cache.
Proof.
  apply (load_images_directory_no_effect Double.lenient "faces" 0 true
           ".cache" Scenario.empty_cache).
  reflexivity.
Defined.

(** X3. Loading a single file always prints the warning about the
    extension first, whatever the extension is: the test looks at one
    character, which is never a member of [IMG_EXTs]. *)
Theorem load_images_file_always_warns (C : Collab) (path : string) (r : ref)
    (cache : bool) (loc : string) (w : World) (bs : list byte) (i : nat)
    (c : string) :
  stat path w = KFile bs ->
  Str.rindex dot path = inr i ->
  Str.item path (i + 1) = inr c ->
  exists rest,
    w_log (snd (load_images path (Some r) cache loc w))
    = (w_log w ++ EvPrint warning :: rest)%list.
Proof.
  intros Hs Hi Hc.
  unfold load_images, bind, ret, os_path_isdir, os_path_isfile, lift.
  rewrite Hs. cbv beta iota. rewrite Hs. cbv beta iota.
  rewrite Hi, Hc, (item_not_extension _ _ _ Hc).
  cbn [negb]. unfold print at 1, emit at 1.
  match goal with
  | |- context [check_and_add r cache loc ?p ?f ?w0] =>
      destruct (check_and_add_log_grows r cache loc p f w0) as [l Hl];
      destruct (check_and_add r cache loc p f w0) as [[e | []] w1]
  end; simpl in *; exists l; rewrite Hl, <- app_assoc; reflexivity.
Qed.

Lemma load_images_file_always_warns_witness :
  exists rest,
    w_log (snd (@load_images Double.lenient "faces/alice.jpg" (Some 0) false
                  ".cache" Scenario.empty_cache))
    = EvPrint warning :: rest.
Proof.
  apply (load_images_file_always_warns Double.lenient "faces/alice.jpg" 0
           false ".cache" Scenario.empty_cache Sample.alice_jpg 11 "j");
    reflexivity.
Defined.

(** X4. A single file whose path has no dot makes [load_images] raise
    [ValueError], and a path ending in its last dot makes it raise
    [IndexError]; in both cases before anything is read, printed or
    stored. *)
Theorem load_images_file_without_extension (C : Collab) (path : string)
    (r : ref) (cache : bool) (loc : string) (w : World) (bs : list byte) :
  stat path w = KFile bs ->
  (Str.rfind dot path = None ->
   load_images path (Some r) cache loc w = (inl ValueError, w))
  /\ (forall i, Str.rfind dot path = Some i ->
                String.get (i + 1) path = None ->
                load_images path (Some r) cache loc w = (inl IndexError, w)).
Proof.
  intros Hs. split.
  - intros Hn.
    unfold load_images, bind, ret, os_path_isdir, os_path_isfile, lift,
      Str.rindex.
    rewrite Hs. cbv beta iota. rewrite Hs. cbv beta iota.
    rewrite Hn. reflexivity.
  - intros i Hi Hg.
    unfold load_images, bind, ret, os_path_isdir, os_path_isfile, lift,
      Str.rindex, Str.item.
    rewrite Hs. cbv beta iota. rewrite Hs. cbv beta iota.
    rewrite Hi, Hg. reflexivity.
Qed.

Lemma load_images_file_without_extension_witness :
  @load_images Double.lenient "README" (Some 0) true ".cache"
    (mkWorld (<["README" := [x61]]> ∅) ∅ [[]] [])
  = (inl ValueError, mkWorld (<["README" := [x61]]> ∅) ∅ [[]] []).
Proof.
  apply (load_images_file_without_extension Double.lenient "README" 0 true
           ".cache" (mkWorld (<["README" := [x61]]> ∅) ∅ [[]] []) [x61]);
    reflexivity.
Defined.

(** ** check_and_add and the cache *)

(** X5. Cache hit: when the cache holds a readable entry under the file
    name (extension included), [check_and_add] stores that encoding under
    the stem and does nothing else: the image is not opened, the embedding
    collaborator is not called and no file is written. *)
Theorem check_and_add_cache_hit (C : Collab) (r : ref) (loc path_ file_ : string)
    (w : World) (i : nat) (bs : list byte) (enc : ndarray) (d : registry) :
  Str.rindex dot file_ = inr i ->
  stat (entry_path file_ loc) w = KFile bs ->
  numpy_read bs = inr enc ->
  w_heap w !! r = Some d ->
  check_and_add r true loc path_ file_ w
  = (inr tt,
     set_heap (<[r := dict_set (Str.take i file_) enc d]> (w_heap w))
       (add_log (EvNumpyLoad (entry_path file_ loc)) w)).
Proof.
  intros Hi Hs Hn Hd. unfold check_and_add, bind at 1, lift at 1.
  rewrite Hi. cbv zeta. unfold try_except.
  rewrite (bind_ok _ _ _ enc _ (eq_trans (get_cached_hit _ _ _ _ Hs)
                                  (f_equal (fun x => (x, _)) Hn))).
  unfold dict_setitem. cbn [w_heap add_log]. rewrite Hd. reflexivity.
Qed.

Lemma check_and_add_cache_hit_witness :
  w_heap (snd (@check_and_add Double.lenient 0 true ".cache" "faces"
                 "alice.jpg" Scenario.hit))
  = [[("alice", [5; 6]%Z)]].
Proof.
  rewrite (check_and_add_cache_hit Double.lenient 0 ".cache" "faces"
             "alice.jpg" Scenario.hit 5 Scenario.npy_5_6 [5; 6]%Z []);
    reflexivity.
Defined.

(** X6. An entry the reader refuses with an exception that is not an
    [OSError] is not recomputed: the exception leaves [check_and_add], the
    dict is unchanged and the embedding collaborator is not called. *)
Theorem check_and_add_unreadable_entry (C : Collab) (r : ref)
    (loc path_ file_ : string) (w : World) (i : nat) (bs : list byte)
    (e : exn) :
  Str.rindex dot file_ = inr i ->
  stat (entry_path file_ loc) w = KFile bs ->
  numpy_read bs = inl e ->
  is_OSError e = false ->
  check_and_add r true loc path_ file_ w
  = (inl e, add_log (EvNumpyLoad (entry_path file_ loc)) w).
Proof.
  intros Hi Hs Hn He. unfold check_and_add, bind at 1, lift at 1.
  rewrite Hi. cbv zeta. unfold try_except.
  rewrite (bind_raise _ _ _ e _ (eq_trans (get_cached_hit _ _ _ _ Hs)
                                   (f_equal (fun x => (x, _)) Hn))).
  rewrite He. reflexivity.
Qed.

Lemma check_and_add_unreadable_entry_witness :
  @check_and_add Double.lenient 0 true ".cache" "faces" "alice.jpg"
    Scenario.corrupt
  = (inl ValueError,
     add_log (EvNumpyLoad ".cache/alice.jpg.encoding") Scenario.corrupt).
Proof.
  apply (check_and_add_unreadable_entry Double.lenient 0 ".cache" "faces"
           "alice.jpg" Scenario.corrupt 5 (tobytes [5; 6]%Z) ValueError);
    reflexivity.
Defined.

(** X7. Cache miss with an entry file for the stem in place: the encoding
    of the first face of the image is stored in the dict under the stem, the
    stem's entry file ends up holding exactly its raw bytes (whatever it held
    before), and the calls happen in the order read, decode, embed, write. *)
Theorem check_and_add_cache_miss_stores (C : Collab) (r : ref)
    (loc path_ file_ : string) (w : World) (i : nat) (bs old : list byte)
    (img : image) (enc : ndarray) (others : list ndarray) (d : registry) :
  Str.rindex dot file_ = inr i ->
  stat (entry_path file_ loc) w = KNone ->
  stat (os_path_join path_ file_) w = KFile bs ->
  decode_image bs = inr img ->
  face_encodings img None = inr (enc :: others) ->
  stat (entry_path (Str.take i file_) loc) w = KFile old ->
  w_heap w !! r = Some d ->
  exists w',
    check_and_add r true loc path_ file_ w = (inr tt, w') /\
    w_heap w' = <[r := dict_set (Str.take i file_) enc d]> (w_heap w) /\
    w_files w'
      = <[entry_path (Str.take i file_) loc := tobytes enc]> (w_files w) /\
    w_log w'
      = (w_log w ++
         [EvNumpyLoad (entry_path file_ loc);
          EvLoadImageFile (os_path_join path_ file_);
          EvFaceEncodings;
          EvWrite (entry_path (Str.take i file_) loc) (tobytes enc)])%list.
Proof.
  intros Hi Hm Hs Hd He Ho Hr. unfold check_and_add, bind at 1, lift at 1.
  rewrite Hi. cbv zeta. unfold try_except.
  rewrite (bind_raise _ _ _ _ _ (get_cached_miss _ _ _ Hm)).
  cbn [is_OSError].
  erewrite bind_ok
    by (apply (first_encoding_run path_ file_ _ bs img (enc :: others));
        [rewrite stat_add_log; exact Hs | exact Hd | exact He]).
  erewrite bind_ok
    by (apply (add_cache_existing _ _ _ _ old);
        rewrite !stat_add_log; exact Ho).
  unfold dict_setitem. cbn [w_heap add_log set_files]. rewrite Hr.
  eexists. split; [reflexivity |].
  cbn [w_heap w_files w_log set_heap add_log set_files].
  split; [reflexivity |]. split; [reflexivity |].
  rewrite <- !app_assoc. reflexivity.
Qed.

Lemma check_and_add_cache_miss_stores_witness :
  exists w',
    @check_and_add Double.lenient 0 true ".cache" "faces" "alice.jpg"
      Scenario.stale = (inr tt, w') /\
    w_heap w' = [[("bob", [9; 9]%Z); ("alice", [3; 4]%Z)]] /\
    w_files w' !! ".cache/alice.encoding" = Some (tobytes [3; 4]%Z).
Proof.
  destruct (check_and_add_cache_miss_stores Double.lenient 0 ".cache"
              "faces" "alice.jpg" Scenario.stale 5 Sample.alice_jpg
              [x01; x02; x03] [(0, [3; 4]%Z)] [3; 4]%Z []
              [("bob", [9; 9]%Z)])
    as (w' & Hrun & Hh & Hf & _); try reflexivity.
  exists w'. split; [exact Hrun |]. rewrite Hh, Hf. split; reflexivity.
Defined.

(** X8. A reference image in which no face is found makes [check_and_add]
    raise [IndexError] (index 0 of an empty list), with the cache off or on
    a cache miss; the dict and the files are left as they were. *)
Theorem check_and_add_no_face (C : Collab) (r : ref) (cache : bool)
    (loc path_ file_ : string) (w : World) (i : nat) (bs : list byte)
    (img : image) :
  Str.rindex dot file_ = inr i ->
  (cache = true -> stat (entry_path file_ loc) w = KNone) ->
  stat (os_path_join path_ file_) w = KFile bs ->
  decode_image bs = inr img ->
  face_encodings img None = inr [] ->
  fst (check_and_add r cache loc path_ file_ w) = inl IndexError
  /\ w_heap (snd (check_and_add r cache loc path_ file_ w)) = w_heap w
  /\ w_files (snd (check_and_add r cache loc path_ file_ w)) = w_files w.
Proof.
  intros Hi Hm Hs Hd He.
  assert (exists w', check_and_add r cache loc path_ file_ w
                     = (inl IndexError, w') /\
                     w_heap w' = w_heap w /\ w_files w' = w_files w)
    as (w' & -> & Hh & Hf); [| auto].
  unfold check_and_add, bind at 1, lift at 1.
  rewrite Hi. cbv zeta. destruct cache.
  - unfold try_except.
    rewrite (bind_raise _ _ _ _ _ (get_cached_miss _ _ _ (Hm eq_refl))).
    cbn [is_OSError].
    erewrite bind_raise
      by (apply (first_encoding_run path_ file_ _ bs img []);
          [rewrite stat_add_log; exact Hs | exact Hd | exact He]).
    eexists. split; [reflexivity | split; reflexivity].
  - erewrite bind_raise
      by (apply (first_encoding_run path_ file_ _ bs img []);
          [exact Hs | exact Hd | exact He]).
    eexists. split; [reflexivity | split; reflexivity].
Qed.

Lemma check_and_add_no_face_witness :
  fst (@check_and_add Scenario.faceless 0 false ".cache" "faces"
         "alice.jpg" Scenario.empty_cache) = inl IndexError.
Proof.
  apply (check_and_add_no_face Scenario.faceless 0 false ".cache" "faces"
           "alice.jpg" Scenario.empty_cache 5 Sample.alice_jpg []);
    reflexivity.
Defined.



Lemma tobytes_length (e : ndarray) : length (tobytes e) = 8 * length e.
Proof.
  unfold tobytes. induction e as [| x e IH]; [reflexivity |].
  cbn [flat_map]. rewrite length_app, IH.
  unfold float64_bytes. rewrite length_map, length_seq. simpl length. lia.
Qed.

(** X10. On an existing entry file [add_cache] overwrites: afterwards the
    entry holds exactly the raw bytes of the encoding, eight per element,
    however long the old content was; every other file and every dict is as
    before. *)
Theorem add_cache_overwrites (name : string) (enc : ndarray) (loc : string)
    (w : World) (old : list byte) :
  stat (entry_path name loc) w = KFile old ->
  fst (add_cache name enc loc w) = inr tt
  /\ w_files (snd (add_cache name enc loc w)) !! entry_path name loc
     = Some (tobytes enc)
  /\ length (tobytes enc) = 8 * length enc
  /\ (forall p, p <> entry_path name loc ->
        w_files (snd (add_cache name enc loc w)) !! p = w_files w !! p)
  /\ w_heap (snd (add_cache name enc loc w)) = w_heap w.
Proof.
  intros H. rewrite (add_cache_existing _ _ _ _ _ H).
  cbn [fst snd w_files w_heap add_log set_files].
  split; [reflexivity |]. split; [apply lookup_insert_eq |].
  split; [apply tobytes_length |]. split; [| reflexivity].
  intros p Hp. apply lookup_insert_ne. congruence.
Qed.

Lemma add_cache_overwrites_witness :
  w_files (snd (add_cache "alice" [3; 4]%Z ".cache" Scenario.stale))
    !! ".cache/alice.encoding"
  = Some (tobytes [3; 4]%Z).
Proof.
  apply (add_cache_overwrites "alice" [3; 4]%Z ".cache" Scenario.stale
           [x01; x02; x03]).
  reflexivity.
Defined.

(** ** load_images: what it leaves alone *)

Lemma print_only_log msg : preserves only_log (print msg).
Proof. apply emit_only_log. Qed.

Lemma load_images_returns_given `{C : Collab} path r cache loc w r' w' :
  load_images path (Some r) cache loc w = (inr r', w') -> r' = r.
Proof.
  intros H. unfold load_images in H.
  apply bind_inv in H as (r0 & w0 & H0 & H). injection H0 as <- <-.
  apply bind_inv in H as ([] & w0 & _ & H).
  - apply bind_inv in H as (wk & w1 & _ & H).
    apply bind_inv in H as ([] & w2 & _ & H). injection H as <- _.
    reflexivity.
  - apply bind_inv in H as ([] & w1 & _ & H); [| discriminate].
    apply bind_inv in H as (i & w2 & _ & H).
    apply bind_inv in H as (c & w3 & _ & H).
    apply bind_inv in H as ([] & w4 & _ & H).
    apply bind_inv in H as ([] & w5 & _ & H). injection H as <- _.
    reflexivity.
Qed.

Lemma load_images_only_given_dict_aux (C : Collab) (path : string) (r : ref)
    (cache : bool) (loc : string) (w : World) :
  (forall r0, r0 <> r ->
     w_heap (snd (load_images path (Some r) cache loc w)) !! r0
     = w_heap w !! r0)
  /\ (forall r', fst (load_images path (Some r) cache loc w) = inr r' ->
                 r' = r).
Proof.
  split.
  - apply (load_images_preserves (others_same r)).
    + apply others_same_refl.
    + apply others_same_trans.
    + intros w0 w1 H. apply same_heap_others, only_log_same_heap, H.
    + intros msg. apply only_log_to_others, print_only_log.
    + intros. apply check_and_add_others.
  - intros r' H.
    destruct (load_images path (Some r) cache loc w) as [res w'] eqn:E.
    simpl in H. subst res. eapply load_images_returns_given; eauto.
Qed.

(** X11. [load_images] works on the dict it is given and on no other: on
    every path, with the cache on or off, whether it returns or raises,
    every other dict object is as before; and when it returns, it returns
    the dict it was given. *)
Theorem load_images_only_given_dict (C : Collab) (path : string) (r : ref)
    (cache : bool) (loc : string) (w : World) :
  (forall r0, r0 <> r ->
     w_heap (snd (load_images path (Some r) cache loc w)) !! r0
     = w_heap w !! r0)
  /\ (forall r', fst (load_images path (Some r) cache loc w) = inr r' ->
                 r' = r).
Proof. apply load_images_only_given_dict_aux. Qed.

(** X12. Called without a dict, [load_images] makes a new one: every dict
    that existed is as before, and the dict returned is not one of them. *)
Theorem load_images_new_dict (C : Collab) (path : string) (cache : bool)
    (loc : string) (w : World) :
  (forall r0 d, w_heap w !! r0 = Some d ->
     w_heap (snd (load_images path None cache loc w)) !! r0 = Some d)
  /\ (forall r', fst (load_images path None cache loc w) = inr r' ->
                 w_heap w !! r' = None).
Proof.
  rewrite load_images_None.
  destruct (load_images_only_given_dict_aux C path (length (w_heap w)) cache
              loc (set_heap (w_heap w ++ [[]]) w)) as [Ho Hr].
  split.
  - intros r0 d Hd.
    assert (r0 < length (w_heap w)) as Hlt by (eapply lookup_lt_Some; eauto).
    rewrite Ho by lia. cbn [w_heap set_heap].
    rewrite lookup_app_l by exact Hlt. exact Hd.
  - intros r' H. rewrite (Hr r' H). apply lookup_ge_None. lia.
Qed.

Lemma load_images_same_names `{C : Collab} path r cache loc :
  preserves same_names (load_images path (Some r) cache loc).
Proof.
  apply load_images_preserves.
  - apply same_names_refl.
  - apply same_names_trans.
  - intros w0 w1 H. apply same_files_same_names, only_log_same_files, H.
  - intros msg.
    apply same_files_to_same_names, only_log_to_same_files, print_only_log.
  - intros. apply check_and_add_same_names.
Qed.

Lemma load_images_uncached_same_files `{C : Collab} path r loc :
  preserves same_files (load_images path (Some r) false loc).
Proof.
  apply load_images_preserves.
  - apply same_files_refl.
  - apply same_files_trans.
  - apply only_log_same_files.
  - intros msg. apply only_log_to_same_files, print_only_log.
  - intros. apply check_and_add_uncached_same_files.
Qed.

(** X13. With [cache=False], [load_images] leaves the file system as it
    is: no file is written, truncated or created, for every path and every
    outcome, with or without a dict passed in. *)
Theorem load_images_uncached_keeps_files (C : Collab) (path : string)
    (mappings : option ref) (loc : string) (w : World) :
  w_files (snd (load_images path mappings false loc w)) = w_files w
  /\ w_walk (snd (load_images path mappings false loc w)) = w_walk w.
Proof.
  destruct mappings as [r |].
  - apply load_images_uncached_same_files.
  - rewrite load_images_None.
    apply (load_images_uncached_same_files path (length (w_heap w)) loc
             (set_heap (w_heap w ++ [[]]) w)).
Qed.

(** X14. [load_images] never creates and never removes a file, with the
    cache on or off: the paths that name files after the call are those
    that named files before it.  (The cache can only be filled where entry
    files already exist.) *)
Theorem load_images_never_creates_files (C : Collab) (path : string)
    (mappings : option ref) (cache : bool) (loc : string) (w : World)
    (p : string) :
  is_Some (w_files (snd (load_images path mappings cache loc w)) !! p)
  <-> is_Some (w_files w !! p).
Proof.
  destruct mappings as [r |].
  - apply (load_images_same_names path r cache loc w).
  - rewrite load_images_None.
    apply (load_images_same_names path (length (w_heap w)) cache loc
             (set_heap (w_heap w ++ [[]]) w)).
Qed.

(** ** check_faces: results *)

(** X15. Whenever [check_faces] returns, it returns no identity: the list
    of labels is empty, the boxes are those [face_locations] found, and no
    encoding was computed for them.  (Collaborators that return no distance
    for no known encoding.) *)
Theorem check_faces_returns_no_identity (C : Collab) (img : image) (r : ref)
    (w w' : World) (ids : list string) (locs : list box) :
  (forall u, no_distance_from_nothing u) ->
  check_faces img r w = (inr (ids, locs), w') ->
  ids = []
  /\ face_locations img = inr locs
  /\ face_encodings img (Some locs) = inr [].
Proof.
  intros Hnd H. unfold check_faces in H.
  apply bind_inv in H as (om & w0 & _ & H). cbv zeta in H.
  apply bind_inv in H as (locs0 & w1 & Hl & H).
  apply bind_inv in H as (encs & w2 & He & H).
  apply bind_inv in H as (res & w3 & Hloop & H).
  injection H as <- <- _.
  unfold call_face_locations in Hl.
  apply bind_inv in Hl as ([] & w4 & _ & Hl). unfold lift in Hl.
  injection Hl as Hl _.
  unfold call_face_encodings in He.
  apply bind_inv in He as ([] & w5 & _ & He). unfold lift in He.
  injection He as He _.
  destruct encs as [| u us].
  - simpl in Hloop. injection Hloop as <- _. auto.
  - destruct (check_faces_loop_raises om (py_map snd om) u us [] w2 (Hnd u))
      as [e E].
    rewrite Hloop in E. discriminate.
Qed.

Lemma check_faces_returns_no_identity_witness :
  @face_locations Double.lenient Sample.no_face = inr [].
Proof.
  apply (check_faces_returns_no_identity Double.lenient Sample.no_face 0
           (Sample.with_dict Sample.two_known Sample.fresh)
           (add_log EvFaceEncodings
              (add_log EvFaceLocations
                 (Sample.with_dict Sample.two_known Sample.fresh)))
           [] []).
  - intros u ds H. injection H as <-. reflexivity.
  - reflexivity.
Defined.

(** ** numpy.argmin as check_faces uses it *)



(** X17. For every registry, empty or not, an image in which at least one
    face is found makes [check_faces] raise: the map object of known
    encodings is used up by the first collaborator call of the loop body.
    (Collaborators that return no distance for no known encoding.) *)
Theorem check_faces_raises_with_any_face (C : Collab) (img : image) (r : ref)
    (d : registry) (w : World) (locs : list box) (u : ndarray)
    (us : list ndarray) :
  w_heap w !! r = Some d ->
  face_locations img = inr locs ->
  face_encodings img (Some locs) = inr (u :: us) ->
  no_distance_from_nothing u ->
  exists e, fst (check_faces img r w) = inl e.
Proof. apply check_faces_raises_on_face. Qed.

Lemma check_faces_raises_with_any_face_witness :
  exists e,
    fst (@check_faces Double.lenient Sample.probe_near_A 0
           (Sample.with_dict Sample.two_known Sample.fresh)) = inl e.
Proof.
  apply (check_faces_raises_with_any_face Double.lenient
           Sample.probe_near_A 0 Sample.two_known
           (Sample.with_dict Sample.two_known Sample.fresh)
           [7] [1; 1]%Z []).
  - reflexivity.
  - reflexivity.
  - reflexivity.
  - intros ds H. injection H as <-. reflexivity.
Defined.

Lemma dict_set_keys_order k v d :
  dict_keys (dict_set k v d)
  = if Str.mem k (dict_keys d) then dict_keys d
    else (dict_keys d ++ [k])%list.
Proof.
  unfold Str.mem. induction d as [| [k0 v0] d IH]; simpl; [reflexivity |].
  rewrite (String.eqb_sym k k0).
  destruct (String.eqb k0 k) eqn:E; simpl; [reflexivity |].
  rewrite IH. destruct (existsb (String.eqb k) (dict_keys d)); reflexivity.
Qed.

Lemma check_and_add_uncached_run `{C : Collab} r loc path_ file_ w i bs img
    enc others d :
  Str.rindex dot file_ = inr i ->
  stat (os_path_join path_ file_) w = KFile bs ->
  decode_image bs = inr img ->
  face_encodings img None = inr (enc :: others) ->
  w_heap w !! r = Some d ->
  check_and_add r false loc path_ file_ w
  = (inr tt,
     set_heap (<[r := dict_set (Str.take i file_) enc d]> (w_heap w))
       (add_log EvFaceEncodings
          (add_log (EvLoadImageFile (os_path_join path_ file_)) w))).
Proof.
  intros Hi Hs Hd He Hr. unfold check_and_add, bind at 1, lift at 1.
  rewrite Hi. cbv zeta.
  erewrite bind_ok
    by (apply (first_encoding_run _ _ _ bs img (enc :: others));
        [exact Hs | exact Hd | exact He]).
  unfold dict_setitem. cbn [w_heap add_log py_index]. rewrite Hr.
  reflexivity.
Qed.

(** X18. With [cache=False], loading a single image file in which a face is
    found returns the given dict with the encoding of the first face stored
    under the stem of the base name: a name already in the dict keeps its
    place, a new name goes last.  The cache is not consulted: the log shows
    the warning, the read of the image and one embedding call. *)
Theorem load_images_file_uncached (C : Collab) (path : string) (r : ref)
    (loc : string) (w : World) (bs bs' : list byte) (i0 i : nat) (c : string)
    (img : image) (enc : ndarray) (others : list ndarray) (d : registry) :
  stat path w = KFile bs ->
  Str.rindex dot path = inr i0 ->
  Str.item path (i0 + 1) = inr c ->
  Str.rindex dot (snd (os_path_split path)) = inr i ->
  stat (os_path_join (fst (os_path_split path)) (snd (os_path_split path))) w
    = KFile bs' ->
  decode_image bs' = inr img ->
  face_encodings img None = inr (enc :: others) ->
  w_heap w !! r = Some d ->
  exists w' d',
    load_images path (Some r) false loc w = (inr r, w') /\
    w_heap w' !! r = Some d' /\
    dict_get (Str.take i (snd (os_path_split path))) d' = Some enc /\
    dict_keys d'
      = (if Str.mem (Str.take i (snd (os_path_split path))) (dict_keys d)
         then dict_keys d
         else (dict_keys d ++ [Str.take i (snd (os_path_split path))])%list)
    /\
    w_log w'
      = (w_log w ++
         [EvPrint warning;
          EvLoadImageFile
            (os_path_join (fst (os_path_split path))
               (snd (os_path_split path)));
          EvFaceEncodings])%list.
Proof.
  intros Hs Hi0 Hc Hi Hs' Hd He Hr.
  unfold load_images, bind, ret, os_path_isdir, os_path_isfile, lift.
  rewrite Hs. cbv beta iota. rewrite Hs. cbv beta iota.
  rewrite Hi0, Hc, (item_not_extension _ _ _ Hc).
  cbn [negb]. unfold print at 1, emit at 1.
  rewrite (check_and_add_uncached_run r loc _ _ _ i bs' img enc others d);
    [| exact Hi | rewrite stat_add_log; exact Hs' | exact Hd | exact He
     | exact Hr].
  assert (r < length (w_heap w)) as Hlt by (eapply lookup_lt_Some; eauto).
  eexists. eexists. split; [reflexivity |].
  cbn [w_heap w_log set_heap add_log].
  split; [apply list_lookup_insert_eq; exact Hlt |].
  split; [apply dict_get_set_eq |].
  split; [apply dict_set_keys_order |].
  rewrite <- !app_assoc. reflexivity.
Qed.

Lemma load_images_file_uncached_witness :
  exists w' d',
    @load_images Double.lenient "faces/alice.jpg" (Some 0) false ".cache"
      Scenario.empty_cache = (inr 0, w') /\
    w_heap w' !! 0 = Some d' /\
    dict_get "alice" d' = Some [3; 4]%Z /\
    dict_keys d' = ["bob"; "alice"].
Proof.
  destruct (load_images_file_uncached Double.lenient "faces/alice.jpg" 0
              ".cache" Scenario.empty_cache Sample.alice_jpg Sample.alice_jpg
              11 5 "j" [(0, [3; 4]%Z)] [3; 4]%Z [] [("bob", [9; 9]%Z)])
    as (w' & d' & Hrun & Hh & Hg & Hk & _); try reflexivity.
  exists w', d'. auto.
Defined.

(** ** Loading the same file twice *)

Lemma stat_files p w w' :
  w_walk w' = w_walk w -> w_files w' !! p = w_files w !! p ->
  stat p w' = stat p w.
Proof. intros Hw Hf. unfold stat. rewrite Hw, Hf. reflexivity. Qed.

Lemma stat_written p q v w w' :
  w_walk w' = w_walk w -> w_files w' = <[q := v]> (w_files w) ->
  (exists old, stat q w = KFile old) ->
  (p <> q -> stat p w' = stat p w) /\ stat q w' = KFile v.
Proof.
  intros Hw Hf [old Ho]. split.
  - intros Hne. apply stat_files; [exact Hw |].
    rewrite Hf. apply lookup_insert_ne. congruence.
  - unfold stat in *. rewrite Hw, Hf, lookup_insert_eq.
    destruct (w_walk w !! q); [discriminate | reflexivity].
Qed.

Section Twice.

Context `{C : Collab}.

(** A load of a single file with a character after the last dot of its path
    is the warning followed by [check_and_add] on the two halves of the
    path. *)
Lemma load_images_file_step path r cache loc w bs i0 c :
  stat path w = KFile bs ->
  Str.rindex dot path = inr i0 ->
  Str.item path (i0 + 1) = inr c ->
  load_images path (Some r) cache loc w
  = (check_and_add r cache loc (fst (os_path_split path))
       (snd (os_path_split path)) ;;; ret r)
      (add_log (EvPrint warning) w).
Proof.
  intros Hs Hi0 Hc.
  unfold load_images, bind, ret, os_path_isdir, os_path_isfile, lift.
  rewrite Hs. cbv beta iota. rewrite Hs. cbv beta iota.
  rewrite Hi0, Hc, (item_not_extension _ _ _ Hc).
  cbn [negb]. unfold print at 1, emit at 1. reflexivity.
Qed.

Lemma check_and_add_no_entry_run r loc path_ file_ w i bs img enc others :
  Str.rindex dot file_ = inr i ->
  stat (entry_path file_ loc) w = KNone ->
  stat (os_path_join path_ file_) w = KFile bs ->
  decode_image bs = inr img ->
  face_encodings img None = inr (enc :: others) ->
  stat (entry_path (Str.take i file_) loc) w = KNone ->
  check_and_add r true loc path_ file_ w
  = (inl FileNotFoundError,
     add_log EvFaceEncodings
       (add_log (EvLoadImageFile (os_path_join path_ file_))
          (add_log (EvNumpyLoad (entry_path file_ loc)) w))).
Proof.
  intros Hi Hm Hs Hd He Ho. unfold check_and_add, bind at 1, lift at 1.
  rewrite Hi. cbv zeta. unfold try_except.
  rewrite (bind_raise _ _ _ _ _ (get_cached_miss _ _ _ Hm)).
  cbn [is_OSError].
  erewrite bind_ok
    by (apply (first_encoding_run path_ file_ _ bs img (enc :: others));
        [rewrite stat_add_log; exact Hs | exact Hd | exact He]).
  erewrite bind_raise
    by (apply add_cache_missing; rewrite !stat_add_log; exact Ho).
  reflexivity.
Qed.

Lemma check_and_add_entry_run r loc path_ file_ w i bs old img enc others d :
  Str.rindex dot file_ = inr i ->
  stat (entry_path file_ loc) w = KNone ->
  stat (os_path_join path_ file_) w = KFile bs ->
  decode_image bs = inr img ->
  face_encodings img None = inr (enc :: others) ->
  stat (entry_path (Str.take i file_) loc) w = KFile old ->
  w_heap w !! r = Some d ->
  exists w',
    check_and_add r true loc path_ file_ w = (inr tt, w') /\
    w_heap w' = <[r := dict_set (Str.take i file_) enc d]> (w_heap w) /\
    w_walk w' = w_walk w /\
    w_files w'
      = <[entry_path (Str.take i file_) loc := tobytes enc]> (w_files w) /\
    w_log w'
      = (w_log w ++
         [EvNumpyLoad (entry_path file_ loc);
          EvLoadImageFile (os_path_join path_ file_);
          EvFaceEncodings;
          EvWrite (entry_path (Str.take i file_) loc) (tobytes enc)])%list.
Proof.
  intros Hi Hm Hs Hd He Ho Hr. unfold check_and_add, bind at 1, lift at 1.
  rewrite Hi. cbv zeta. unfold try_except.
  rewrite (bind_raise _ _ _ _ _ (get_cached_miss _ _ _ Hm)).
  cbn [is_OSError].
  erewrite bind_ok
    by (apply (first_encoding_run path_ file_ _ bs img (enc :: others));
        [rewrite stat_add_log; exact Hs | exact Hd | exact He]).
  erewrite bind_ok
    by (apply (add_cache_existing _ _ _ _ old);
        rewrite !stat_add_log; exact Ho).
  unfold dict_setitem. cbn [w_heap add_log set_files]. rewrite Hr.
  eexists. split; [reflexivity |].
  cbn [w_heap w_files w_walk w_log set_heap add_log set_files].
  split; [reflexivity |]. split; [reflexivity |]. split; [reflexivity |].
  rewrite <- !app_assoc. reflexivity.
Qed.

End Twice.

(** C8. Loading the same file twice into the same registry is to leave
    exactly one entry under the file's stem.  With the cache on, as it is by
    default, and a cache directory that holds no entry file for the image,
    each of the two loads computes the encoding and then raises
    [FileNotFoundError] from the cache write: after both, the dict and the
    files are exactly as before the first, so the registry has no entry for
    the name, and the embedding collaborator has been called twice. *)
Theorem load_images_same_file_twice_default_cache (C : Collab)
    (path : string) (r : ref) (loc : string) (w : World) (bs bs' : list byte)
    (i0 i : nat) (c : string) (img : image) (enc : ndarray)
    (others : list ndarray) :
  stat path w = KFile bs ->
  Str.rindex dot path = inr i0 ->
  Str.item path (i0 + 1) = inr c ->
  Str.rindex dot (snd (os_path_split path)) = inr i ->
  stat (os_path_join (fst (os_path_split path)) (snd (os_path_split path))) w
    = KFile bs' ->
  decode_image bs' = inr img ->
  face_encodings img None = inr (enc :: others) ->
  stat (entry_path (snd (os_path_split path)) loc) w = KNone ->
  stat (entry_path (Str.take i (snd (os_path_split path))) loc) w = KNone ->
  exists w1 w2,
    load_images path (Some r) true loc w = (inl FileNotFoundError, w1) /\
    load_images path (Some r) true loc w1 = (inl FileNotFoundError, w2) /\
    w_heap w2 = w_heap w /\
    w_files w2 = w_files w /\
    w_log w2
    = (w_log w ++
       [EvPrint warning;
        EvNumpyLoad (entry_path (snd (os_path_split path)) loc);
        EvLoadImageFile
          (os_path_join (fst (os_path_split path))
             (snd (os_path_split path)));
        EvFaceEncodings;
        EvPrint warning;
        EvNumpyLoad (entry_path (snd (os_path_split path)) loc);
        EvLoadImageFile
          (os_path_join (fst (os_path_split path))
             (snd (os_path_split path)));
        EvFaceEncodings])%list.
Proof.
  intros Hs Hi0 Hc Hi Hs' Hd He Hm Ho.
  assert (forall w0,
            (forall p, stat p w0 = stat p w) ->
            load_images path (Some r) true loc w0
            = (inl FileNotFoundError,
               add_log EvFaceEncodings
                 (add_log
                    (EvLoadImageFile
                       (os_path_join (fst (os_path_split path))
                          (snd (os_path_split path))))
                    (add_log
                       (EvNumpyLoad
                          (entry_path (snd (os_path_split path)) loc))
                       (add_log (EvPrint warning) w0))))) as Hrun.
  { intros w0 Hst.
    rewrite (load_images_file_step path r true loc w0 bs i0 c)
      by (rewrite ?Hst; assumption).
    apply bind_raise.
    apply (check_and_add_no_entry_run r loc _ _ _ i bs' img enc others);
      rewrite ?stat_add_log, ?Hst; assumption. }
  eexists. eexists.
  split; [apply Hrun; reflexivity |].
  split; [apply Hrun; intros p; rewrite !stat_add_log; reflexivity |].
  cbn [w_heap w_files w_log add_log].
  split; [reflexivity |]. split; [reflexivity |].
  rewrite <- !app_assoc. reflexivity.
Qed.

Lemma load_images_same_file_twice_default_cache_witness :
  exists w1 w2,
    @load_images Double.lenient "faces/alice.jpg" (Some 0) true ".cache"
      Scenario.empty_cache = (inl FileNotFoundError, w1) /\
    @load_images Double.lenient "faces/alice.jpg" (Some 0) true ".cache" w1
      = (inl FileNotFoundError, w2) /\
    w_heap w2 = [[("bob", [9; 9]%Z)]] /\
    dict_count "alice" [("bob", [9; 9]%Z)] = 0.
Proof.
  destruct (load_images_same_file_twice_default_cache Double.lenient
              "faces/alice.jpg" 0 ".cache" Scenario.empty_cache
              Sample.alice_jpg Sample.alice_jpg 11 5 "j" [(0, [3; 4]%Z)]
              [3; 4]%Z [])
    as (w1 & w2 & H1 & H2 & Hh & _); try reflexivity.
  exists w1, w2. rewrite Hh. repeat split; assumption.
Defined.

(** X19. With [cache=False], loading the same image file twice into the
    same dict is idempotent.  Both loads return the given dict; after each
    the dict has exactly one entry under the stem and its value is the
    encoding of the first face of the image, whatever was stored under that
    name before; every other entry keeps its value; and the second load
    leaves the dict exactly as the first left it. *)
Theorem load_images_same_file_twice_uncached (C : Collab) (path : string)
    (r : ref) (loc : string) (w : World) (bs bs' : list byte) (i0 i : nat)
    (c : string) (img : image) (enc : ndarray) (others : list ndarray)
    (d : registry) :
  stat path w = KFile bs ->
  Str.rindex dot path = inr i0 ->
  Str.item path (i0 + 1) = inr c ->
  Str.rindex dot (snd (os_path_split path)) = inr i ->
  stat (os_path_join (fst (os_path_split path)) (snd (os_path_split path))) w
    = KFile bs' ->
  decode_image bs' = inr img ->
  face_encodings img None = inr (enc :: others) ->
  w_heap w !! r = Some d ->
  NoDup (dict_keys d) ->
  exists w1 w2 d1,
    load_images path (Some r) false loc w = (inr r, w1) /\
    load_images path (Some r) false loc w1 = (inr r, w2) /\
    w_heap w1 !! r = Some d1 /\
    w_heap w2 = w_heap w1 /\
    dict_get (Str.take i (snd (os_path_split path))) d1 = Some enc /\
    dict_count (Str.take i (snd (os_path_split path))) d1 = 1 /\
    (forall k, k <> Str.take i (snd (os_path_split path)) ->
               dict_get k d1 = dict_get k d) /\
    (forall r0, r0 <> r -> w_heap w2 !! r0 = w_heap w !! r0).
Proof.
  intros Hs Hi0 Hc Hi Hs' Hd He Hr Hnd.
  set (name := Str.take i (snd (os_path_split path))).
  assert (r < length (w_heap w)) as Hlt by (eapply lookup_lt_Some; eauto).
  assert (forall w0 d0,
            (forall p, stat p w0 = stat p w) ->
            w_heap w0 !! r = Some d0 ->
            load_images path (Some r) false loc w0
            = (inr r,
               set_heap (<[r := dict_set name enc d0]> (w_heap w0))
                 (add_log EvFaceEncodings
                    (add_log
                       (EvLoadImageFile
                          (os_path_join (fst (os_path_split path))
                             (snd (os_path_split path))))
                       (add_log (EvPrint warning) w0))))) as Hrun.
  { intros w0 d0 Hst Hr0.
    rewrite (load_images_file_step path r false loc w0 bs i0 c)
      by (rewrite ?Hst; assumption).
    erewrite bind_ok
      by (apply (check_and_add_uncached_run r loc _ _ _ i bs' img enc others
                   d0);
          rewrite ?stat_add_log, ?Hst; assumption).
    reflexivity. }
  eexists. eexists. exists (dict_set name enc d).
  split; [apply (Hrun w d); [reflexivity | exact Hr] |].
  split.
  { apply (Hrun _ (dict_set name enc d)).
    - intros p. rewrite stat_set_heap, !stat_add_log. reflexivity.
    - cbn [w_heap set_heap add_log].
      apply list_lookup_insert_eq. exact Hlt. }
  cbn [w_heap set_heap add_log].
  split; [apply list_lookup_insert_eq; exact Hlt |].
  split; [rewrite dict_set_twice, list_insert_insert_eq; reflexivity |].
  split; [apply dict_get_set_eq |].
  split; [apply dict_count_set; exact Hnd |].
  split; [intros k Hk; apply dict_get_set_ne; exact Hk |].
  intros r0 Hr0. rewrite !list_lookup_insert_ne by congruence. reflexivity.
Qed.

Lemma load_images_same_file_twice_uncached_witness :
  exists w1 w2 d1,
    @load_images Double.lenient "faces/alice.jpg" (Some 0) false ".cache"
      (Sample.with_dict [("alice", [7; 7]%Z); ("bob", [9; 9]%Z)]
         Sample.fresh) = (inr 0, w1) /\
    @load_images Double.lenient "faces/alice.jpg" (Some 0) false ".cache" w1
      = (inr 0, w2) /\
    w_heap w1 !! 0 = Some d1 /\
    w_heap w2 = w_heap w1 /\
    dict_get "alice" d1 = Some [3; 4]%Z /\
    dict_count "alice" d1 = 1 /\
    dict_get "bob" d1 = Some [9; 9]%Z.
Proof.
  destruct (load_images_same_file_twice_uncached Double.lenient
              "faces/alice.jpg" 0 ".cache"
              (Sample.with_dict [("alice", [7; 7]%Z); ("bob", [9; 9]%Z)]
                 Sample.fresh)
              Sample.alice_jpg Sample.alice_jpg 11 5 "j" [(0, [3; 4]%Z)]
              [3; 4]%Z [] [("alice", [7; 7]%Z); ("bob", [9; 9]%Z)])
    as (w1 & w2 & d1 & H1 & H2 & Hd1 & Hh & Hg & Hc & Ho & _);
    try reflexivity.
  - apply NoDup_cons. split; [| apply NoDup_singleton].
    intros H. apply list_elem_of_In in H. destruct H as [H | []].
    discriminate.
  - exists w1, w2, d1. repeat split; try assumption.
    rewrite (Ho "bob") by discriminate. reflexivity.
Defined.

(** X20. With the cache on and an entry file for the stem already in the
    cache directory (and none under the file name), loading the same image
    file twice returns the given dict both times and is idempotent on the
    dict and on the files: one entry under the stem holding the encoding of
    the first face, every other entry unchanged, the stem's entry file
    holding the raw bytes.  The second load is not served from the cache:
    the embedding collaborator is called once per load. *)
Theorem load_images_same_file_twice_with_entry (C : Collab) (path : string)
    (r : ref) (loc : string) (w : World) (bs bs' old : list byte)
    (i0 i : nat) (c : string) (img : image) (enc : ndarray)
    (others : list ndarray) (d : registry) :
  stat path w = KFile bs ->
  Str.rindex dot path = inr i0 ->
  Str.item path (i0 + 1) = inr c ->
  Str.rindex dot (snd (os_path_split path)) = inr i ->
  stat (os_path_join (fst (os_path_split path)) (snd (os_path_split path))) w
    = KFile bs' ->
  decode_image bs' = inr img ->
  face_encodings img None = inr (enc :: others) ->
  stat (entry_path (snd (os_path_split path)) loc) w = KNone ->
  stat (entry_path (Str.take i (snd (os_path_split path))) loc) w
    = KFile old ->
  os_path_join (fst (os_path_split path)) (snd (os_path_split path))
    <> entry_path (Str.take i (snd (os_path_split path))) loc ->
  w_heap w !! r = Some d ->
  NoDup (dict_keys d) ->
  exists w1 w2 d1,
    load_images path (Some r) true loc w = (inr r, w1) /\
    load_images path (Some r) true loc w1 = (inr r, w2) /\
    w_heap w1 !! r = Some d1 /\
    w_heap w2 = w_heap w1 /\
    w_files w2 = w_files w1 /\
    w_files w1
      = <[entry_path (Str.take i (snd (os_path_split path))) loc
          := tobytes enc]> (w_files w) /\
    dict_get (Str.take i (snd (os_path_split path))) d1 = Some enc /\
    dict_count (Str.take i (snd (os_path_split path))) d1 = 1 /\
    (forall k, k <> Str.take i (snd (os_path_split path)) ->
               dict_get k d1 = dict_get k d) /\
    count_events is_embedding_call (w_log w2)
      = count_events is_embedding_call (w_log w) + 2.
Proof.
  intros Hs Hi0 Hc Hi Hs' Hd He Hm Ho Hne Hr Hnd.
  set (head := fst (os_path_split path)) in *.
  set (tail := snd (os_path_split path)) in *.
  set (name := Str.take i tail) in *.
  set (entry := entry_path name loc) in *.
  assert (r < length (w_heap w)) as Hlt by (eapply lookup_lt_Some; eauto).
  assert (forall w0 d0 b0 old0,
            stat path w0 = KFile b0 ->
            stat (os_path_join head tail) w0 = KFile bs' ->
            stat (entry_path tail loc) w0 = KNone ->
            stat entry w0 = KFile old0 ->
            w_heap w0 !! r = Some d0 ->
            exists w',
              load_images path (Some r) true loc w0 = (inr r, w') /\
              w_heap w' = <[r := dict_set name enc d0]> (w_heap w0) /\
              w_walk w' = w_walk w0 /\
              w_files w' = <[entry := tobytes enc]> (w_files w0) /\
              w_log w'
                = ((w_log w0 ++ [EvPrint warning]) ++
                   [EvNumpyLoad (entry_path tail loc);
                    EvLoadImageFile (os_path_join head tail);
                    EvFaceEncodings;
                    EvWrite entry (tobytes enc)])%list) as Hrun.
  { intros w0 d0 b0 old0 H1 H2 H3 H4 H5.
    destruct (check_and_add_entry_run r loc head tail
                (add_log (EvPrint warning) w0) i bs' old0 img enc others d0)
      as (w' & Hca & Hh & Hw & Hf & Hl);
      rewrite ?stat_add_log; try assumption.
    exists w'.
    rewrite (load_images_file_step path r true loc w0 b0 i0 c)
      by assumption.
    fold head tail. rewrite (bind_ok _ _ _ _ _ Hca).
    repeat split; assumption. }
  destruct (Hrun w d bs old Hs Hs' Hm Ho Hr)
    as (w1 & L1 & Hh1 & Hw1 & Hf1 & Hl1).
  destruct (stat_written path entry (tobytes enc) w w1 Hw1 Hf1
              (ex_intro _ old Ho)) as [Hp1 Hq1].
  assert (exists b1, stat path w1 = KFile b1) as [b1 Hs1].
  { destruct (decide (path = entry)) as [Hpe | Hpe].
    - exists (tobytes enc). rewrite Hpe. exact Hq1.
    - exists bs. rewrite (Hp1 Hpe). exact Hs. }
  assert (stat (os_path_join head tail) w1 = KFile bs') as Hs1'.
  { destruct (stat_written (os_path_join head tail) entry (tobytes enc) w w1
                Hw1 Hf1 (ex_intro _ old Ho)) as [Hp _].
    rewrite (Hp Hne). exact Hs'. }
  assert (stat (entry_path tail loc) w1 = KNone) as Hm1.
  { destruct (stat_written (entry_path tail loc) entry (tobytes enc) w w1
                Hw1 Hf1 (ex_intro _ old Ho)) as [Hp _].
    rewrite Hp; [exact Hm |].
    intros E. rewrite E, Ho in Hm. discriminate. }
  assert (w_heap w1 !! r = Some (dict_set name enc d)) as Hr1.
  { rewrite Hh1. apply list_lookup_insert_eq. exact Hlt. }
  destruct (Hrun w1 (dict_set name enc d) b1 (tobytes enc) Hs1 Hs1' Hm1 Hq1
              Hr1)
    as (w2 & L2 & Hh2 & Hw2 & Hf2 & Hl2).
  exists w1, w2, (dict_set name enc d).
  split; [exact L1 |]. split; [exact L2 |]. split; [exact Hr1 |].
  split.
  { rewrite Hh2, Hh1, dict_set_twice, list_insert_insert_eq. reflexivity. }
  split; [rewrite Hf2, Hf1, insert_insert_eq; reflexivity |].
  split; [exact Hf1 |].
  split; [apply dict_get_set_eq |].
  split; [apply dict_count_set; exact Hnd |].
  split; [intros k Hk; apply dict_get_set_ne; exact Hk |].
  rewrite Hl2, Hl1, !count_events_app. cbn. lia.
Qed.

Lemma load_images_same_file_twice_with_entry_witness :
  exists w1 w2 d1,
    @load_images Double.lenient "faces/alice.jpg" (Some 0) true ".cache"
      Scenario.stale = (inr 0, w1) /\
    @load_images Double.lenient "faces/alice.jpg" (Some 0) true ".cache" w1
      = (inr 0, w2) /\
    w_heap w1 !! 0 = Some d1 /\
    w_heap w2 = w_heap w1 /\
    dict_get "alice" d1 = Some [3; 4]%Z /\
    dict_get "bob" d1 = Some [9; 9]%Z /\
    count_events is_embedding_call (w_log w2) = 2.
Proof.
  destruct (load_images_same_file_twice_with_entry Double.lenient
              "faces/alice.jpg" 0 ".cache" Scenario.stale
              Sample.alice_jpg Sample.alice_jpg [x01; x02; x03] 11 5 "j"
              [(0, [3; 4]%Z)] [3; 4]%Z [] [("bob", [9; 9]%Z)])
    as (w1 & w2 & d1 & H1 & H2 & Hd1 & Hh & _ & _ & Hg & _ & Ho & Hn);
    try reflexivity.
  - discriminate.
  - apply NoDup_singleton.
  - exists w1, w2, d1. repeat split; try assumption.
    rewrite (Ho "bob") by discriminate. reflexivity.
Defined.
